(** * Arrow trace batches back to OTLP: a shallow embedding

    This development embeds the two Python modules of the repository,
    [load_arrow_traces.py] and [convert_arrow_to_otlp.py], and proves
    properties of the trace reconstruction, streaming, statistics and
    training-example code.

    Conventions of the embedding:
    - a Python [dict] is an association list in insertion order (Python
      dictionaries iterate in insertion order, and the order is observable
      in the emitted JSON);
    - a raised exception is the [Raise] branch of [result];
    - [json.loads], [glob.glob], [pathlib] and the file system are not code
      of the repository: they are variables of the section [Program];
    - a pandas cell that holds a null string is [None]; Python's [None] as a
      dictionary key or JSON value is [None] of [Label];
    - an int64 column sums in 64-bit arithmetic and wraps around; a finite
      float64 value is the rational it denotes, and every float64 operation
      rounds its exact result to the nearest float64, ties to even
      (IEEE 754, through [SFdiv] of the [SpecFloat] library); the order in
      which pandas adds up a float64 series is the library's, so the
      program is parameterised by the summation, class [Summation];
    - the converter's output directory can be created: [mkdir] does not
      raise;
    - the [print] calls are progress reports and are left out. *)

From Stdlib Require Import List String Ascii ZArith QArith Bool Lia Permutation Sorted.
From Stdlib Require Import Floats.SpecFloat.
Import ListNotations.
Open Scope string_scope.
Open Scope list_scope.

Set Implicit Arguments.

(** ** Exceptions and results *)

Inductive exn : Type :=
| FileNotFoundError
| JSONDecodeError
| KeyError
| ArrowInvalid.

Inductive result (A : Type) : Type :=
| Ok (a : A)
| Raise (e : exn).

Arguments Ok {A} a.
Arguments Raise {A} e.

Definition bind {A B : Type} (m : result A) (k : A -> result B) : result B :=
  match m with
  | Ok a => k a
  | Raise e => Raise e
  end.

Notation "x <- m ;; k" := (bind m (fun x => k))
  (at level 61, m at next level, right associativity).

Definition default {A : Type} (d : A) (o : option A) : A :=
  match o with
  | Some a => a
  | None => d
  end.

(** ** Insertion-ordered dictionaries *)

Section Dict.
Variables K V : Type.
Variable eqb : K -> K -> bool.

Definition dict := list (K * V).

(** [d.get(k)] *)
Fixpoint dict_get (d : dict) (k : K) : option V :=
  match d with
  | [] => None
  | (k', v) :: d' => if eqb k k' then Some v else dict_get d' k
  end.

(** [d[k] = v]: an existing key keeps its position, a new key goes last. *)
Fixpoint dict_set (d : dict) (k : K) (v : V) : dict :=
  match d with
  | [] => [(k, v)]
  | (k', v') :: d' =>
      if eqb k k' then (k', v) :: d' else (k', v') :: dict_set d' k v
  end.

(** A dictionary given by its keys and a function of the key. *)
Definition tabulate (f : K -> V) (l : list K) : dict :=
  map (fun k => (k, f k)) l.
End Dict.

(** ** The table of span records *)

(** A service label as Python sees it: a string, or [None]. *)
Definition Label := option string.

Definition Label_eqb (a b : Label) : bool :=
  match a, b with
  | Some x, Some y => String.eqb x y
  | None, None => true
  | _, _ => false
  end.

(** One row of a batch file.  [service_name] is [None] for a null cell; the
    other string columns are taken non-null. *)
Record Row : Type := mkRow {
  trace_id : string;
  span_id : string;
  parent_span_id : string;
  service_name : option string;
  name : string;
  kind : string;
  duration_ns : Z;
  otlp_span : string
}.

(** A batch file read into memory.  [has_service_name] tells whether the
    file has a [service_name] column at all (the converter reads it with
    [row.get('service_name', 'unknown')]); when it is [false] the
    [service_name] field of the rows is not looked at. *)
Record Table : Type := mkTable {
  has_service_name : bool;
  rows : list Row
}.

(** [row.get('service_name', 'unknown')] on a pandas row: the default is
    returned only when the row has no such column; a null cell is returned
    as it is. *)
Definition row_get_service_name (t : Table) (row : Row) : Label :=
  if has_service_name t then service_name row else Some "unknown".

(** [df['service_name']]: the column, or [KeyError]. *)
Definition column_service_name (t : Table) : result (list (option string)) :=
  if has_service_name t then Ok (map service_name (rows t)) else Raise KeyError.

(** ** The OTLP output tree *)

Section Tree.
Variable Payload : Type.

Record KeyValue : Type := mkKeyValue {
  key : string;
  stringValue : Label
}.

Record Resource : Type := mkResource {
  attributes : list KeyValue
}.

Record ScopeSpans : Type := mkScopeSpans {
  spans : list Payload
}.

Record ResourceSpan : Type := mkResourceSpan {
  resource : Resource;
  scopeSpans : list ScopeSpans
}.

Record OtlpData : Type := mkOtlpData {
  resourceSpans : list ResourceSpan
}.

(** The literal the two converters build for one group. *)
Definition resource_span (service : Label) (all_spans : list Payload)
  : ResourceSpan :=
  mkResourceSpan
    (mkResource [mkKeyValue "service.name" service])
    [mkScopeSpans all_spans].

(** Reading a group back: its service labels and its spans. *)
Definition rs_labels (rs : ResourceSpan) : list Label :=
  map stringValue
    (filter (fun kv => String.eqb (key kv) "service.name")
       (attributes (resource rs))).

Definition rs_spans (rs : ResourceSpan) : list Payload :=
  flat_map spans (scopeSpans rs).

Definition tree_labels (o : OtlpData) : list Label :=
  flat_map rs_labels (resourceSpans o).

Definition tree_spans (o : OtlpData) : list Payload :=
  flat_map rs_spans (resourceSpans o).
End Tree.

Arguments mkScopeSpans {Payload} spans.
Arguments mkResourceSpan {Payload} resource scopeSpans.
Arguments mkOtlpData {Payload} resourceSpans.

(** ** Library functions the code calls *)

(** [sorted] on a list of path strings (code-point order). *)
Fixpoint insert_sorted (x : string) (l : list string) : list string :=
  match l with
  | [] => [x]
  | y :: t => if String.leb x y then x :: l else y :: insert_sorted x t
  end.

Definition sorted (l : list string) : list string :=
  fold_right insert_sorted [] l.

(** pandas [Series.unique]: the distinct values in order of first
    appearance. *)
Fixpoint unique (K : Type) (eqb : K -> K -> bool) (l : list K) : list K :=
  match l with
  | [] => []
  | x :: t => x :: filter (fun y => negb (eqb y x)) (unique eqb t)
  end.

(** pandas [Series.nunique]: null values are not counted. *)
Fixpoint dropna (A : Type) (l : list (option A)) : list A :=
  match l with
  | [] => []
  | Some a :: t => a :: dropna t
  | None :: t => dropna t
  end.

Definition nunique (l : list (option string)) : nat :=
  List.length (unique String.eqb (dropna l)).

(** An int64 result wraps around (two's complement). *)
Definition int64_wrap (z : Z) : Z := ((z + 2 ^ 63) mod 2 ^ 64 - 2 ^ 63)%Z.

(** [Series.sum] of an int64 column: the running sum is an int64. *)
Definition int64_sum (l : list Z) : Z :=
  fold_left (fun acc z => int64_wrap (acc + z)) l 0%Z.

(** A float64 result: a number, or NaN.  [Fin] holds the rational a finite
    float64 denotes. *)
Inductive Float : Type :=
| NaN
| Fin (q : Q).

(** An integer as an operand of [SFdiv]. *)
Definition float64_of_Z (z : Z) : spec_float :=
  match z with
  | Z0 => S754_zero false
  | Zpos p => S754_finite false p 0
  | Zneg p => S754_finite true p 0
  end.

(** The rational a finite binary64 denotes. *)
Definition float64_value (x : spec_float) : Q :=
  match x with
  | S754_finite s m e =>
      let v := if s then Zneg m else Zpos m in
      match e with
      | Zneg k => v # (2 ^ k)
      | _ => inject_Z (v * 2 ^ e)
      end
  | _ => 0%Q
  end.

(** The float64 nearest to a rational, ties to even: the correctly rounded
    quotient of numerator and denominator (binary64 has 53 bits of
    precision and exponents below 1024). *)
Definition round64 (q : Q) : Q :=
  float64_value
    (SFdiv 53 1024 (float64_of_Z (Qnum q)) (float64_of_Z (Zpos (Qden q)))).

(** int64 to float64, float64 division and addition.  The divisors of the
    program are never zero, and values beyond the float64 range do not
    arise from int64 operands. *)
Definition float64_of_int (z : Z) : Q := round64 (inject_Z z).
Definition float64_div (x y : Q) : Q := round64 (x / y).
Definition float64_add (x y : Q) : Q := round64 (x + y).

Arguments round64 : simpl never.
Arguments float64_of_int : simpl never.
Arguments float64_div : simpl never.
Arguments float64_add : simpl never.
Arguments int64_wrap : simpl never.

(** The sum of a float64 series as the library computes it.  The order of
    the additions, and with it the rounded result, is the library's: numpy
    adds pairwise in blocks, bottleneck from left to right. *)
Class Summation : Type := float64_sum : list Q -> Q.

(** pandas [Series.mean] of a float64 series: the sum divided by the count;
    NaN on an empty series. *)
Definition series_mean {summation : Summation} (l : list Q) : Float :=
  match l with
  | [] => NaN
  | _ :: _ =>
      Fin (float64_div (float64_sum l) (float64_of_int (Z.of_nat (List.length l))))
  end.

(** pandas [Series.value_counts().to_dict()]: how often each value occurs.
    The entries are listed by first appearance; pandas lists them by
    falling count, which no property below looks at. *)
Definition value_counts (l : list string) : dict string nat :=
  map (fun k => (k, List.length (filter (String.eqb k) l))) (unique String.eqb l).

(** ** Results of the operations *)

Record Stats : Type := mkStats {
  total_spans : nat;
  unique_traces : nat;
  unique_services : nat;
  span_kinds : dict string nat;
  avg_duration_ms : Float;
  total_duration_seconds : Float
}.

Record TrainingExample : Type := mkExample {
  ex_trace_id : string;
  ex_service_names : list Label;
  ex_span_count : nat;
  ex_span_names : list string;
  ex_total_duration_ms : Float;
  ex_root_span : option string
}.

(** What an operation leaves on disk, in the order it happens. *)
Inductive FsEffect (Payload : Type) : Type :=
| Mkdir (path : string)
| WriteJson (path : string) (data : OtlpData Payload)
| WriteJsonl (path : string) (lines : list TrainingExample).

Arguments Mkdir {Payload} path.
Arguments WriteJson {Payload} path data.
Arguments WriteJsonl {Payload} path lines.

(** ** The program *)

Section Program.
Context {summation : Summation}.
Variable Payload : Type.
(** [json.loads]: [None] when it raises [JSONDecodeError]. *)
Variable json_loads : string -> option Payload.
(** The batch files on disk, by path. *)
Variable fs : string -> option Table.
(** [glob.glob]. *)
Variable glob : string -> list string.
(** [Path(p).stem] and [Path(d) / f]. *)
Variable path_stem : string -> string.
Variable path_join : string -> string -> string.

(** [feather.read_table]: a path that is not on disk raises
    [FileNotFoundError]; what is on disk is an Arrow table. *)
Definition read_table (file_path : string) : result Table :=
  match fs file_path with
  | Some t => Ok t
  | None => Raise FileNotFoundError
  end.

(** [os.path.exists] *)
Definition path_exists (file_path : string) : bool :=
  match fs file_path with
  | Some _ => true
  | None => false
  end.

Definition load_arrow_batch (file_path : string) : result Table :=
  read_table file_path.

(** [pa.concat_tables]: the tables must have the same columns. *)
Definition concat_tables (tables : list Table) : result Table :=
  match tables with
  | [] => Raise ArrowInvalid
  | t :: ts =>
      if forallb (fun t' => Bool.eqb (has_service_name t') (has_service_name t)) ts
      then Ok (mkTable (has_service_name t) (flat_map rows tables))
      else Raise ArrowInvalid
  end.

Fixpoint read_tables (files : list string) (tables : list Table)
  : result (list Table) :=
  match files with
  | [] => Ok tables
  | file_path :: rest =>
      table <- read_table file_path ;;
      read_tables rest (tables ++ [table])
  end.

Definition load_all_arrow_batches (pattern : string) : result Table :=
  let batch_files := sorted (glob pattern) in
  match batch_files with
  | [] => Raise FileNotFoundError
  | _ :: _ =>
      tables <- read_tables batch_files [] ;;
      concat_tables tables
  end.

(** The row loop of [load_otlp_spans_from_arrow]. *)
Fixpoint spans_loop (rs : list Row) (otlp_spans : list Payload)
  : result (list Payload) :=
  match rs with
  | [] => Ok otlp_spans
  | row :: rest =>
      match json_loads (otlp_span row) with
      | None => Raise JSONDecodeError
      | Some otlp => spans_loop rest (otlp_spans ++ [otlp])
      end
  end.

Definition load_otlp_spans_from_arrow (arrow_file : string)
  : result (list Payload) :=
  table <- read_table arrow_file ;;
  spans_loop (rows table) [].

(** [traces[trace_id].append(otlp_span)] on a [defaultdict(list)]. *)
Definition traces_append (traces : dict string (list Payload))
    (tid : string) (otlp : Payload) : dict string (list Payload) :=
  dict_set String.eqb traces tid
    (default [] (dict_get String.eqb traces tid) ++ [otlp]).

(** The row loop of [load_otlp_traces_from_arrow]. *)
Fixpoint traces_loop (rs : list Row) (traces : dict string (list Payload))
  : result (dict string (list Payload)) :=
  match rs with
  | [] => Ok traces
  | row :: rest =>
      match json_loads (otlp_span row) with
      | None => Raise JSONDecodeError
      | Some otlp => traces_loop rest (traces_append traces (trace_id row) otlp)
      end
  end.

Definition load_otlp_traces_from_arrow (arrow_file : string)
  : result (dict string (list Payload)) :=
  table <- read_table arrow_file ;;
  traces_loop (rows table) [].

(** [d[k].extend(vs)] on a [defaultdict(list)]. *)
Definition dict_extend (d : dict string (list Payload))
    (kv : string * list Payload) : dict string (list Payload) :=
  dict_set String.eqb d (fst kv)
    (default [] (dict_get String.eqb d (fst kv)) ++ snd kv).

(** The file loop of [arrow_to_otlp_json]. *)
Fixpoint all_traces_loop (arrow_files : list string)
    (all_traces : dict string (list Payload))
  : result (dict string (list Payload)) :=
  match arrow_files with
  | [] => Ok all_traces
  | arrow_file :: rest =>
      traces <- load_otlp_traces_from_arrow arrow_file ;;
      all_traces_loop rest (fold_left dict_extend traces all_traces)
  end.

(** For one trace of [arrow_to_otlp_json]: every span goes under the
    service name ['unknown'], and one group is emitted per service. *)
Definition trace_resource_spans (trace_spans : list Payload)
  : list (ResourceSpan Payload) :=
  let service_groups :=
    fold_left
      (fun (sg : dict Label (list Payload)) span =>
         let service_name : Label := Some "unknown" in
         dict_set Label_eqb sg service_name
           (default [] (dict_get Label_eqb sg service_name) ++ [span]))
      trace_spans [] in
  map (fun kv => resource_span (fst kv) (snd kv)) service_groups.

Definition arrow_to_otlp_json (arrow_files : list string) (output_file : string)
  : list (FsEffect Payload) * result unit :=
  match all_traces_loop arrow_files [] with
  | Raise e => ([], Raise e)
  | Ok all_traces =>
      let resource_spans_list :=
        flat_map (fun kv => trace_resource_spans (snd kv)) all_traces in
      ([WriteJson output_file (mkOtlpData resource_spans_list)], Ok tt)
  end.

(** The row loop of [stream_otlp_spans] on one file: the batches yielded
    so far, and the batch being filled when the rows run out. *)
Fixpoint stream_rows (rs : list Row) (batch_size : Z)
    (current_batch : list Payload) (yielded : list (list Payload))
  : list (list Payload) * result (list Payload) :=
  match rs with
  | [] => (yielded, Ok current_batch)
  | row :: rest =>
      match json_loads (otlp_span row) with
      | None => (yielded, Raise JSONDecodeError)
      | Some otlp =>
          let current_batch := current_batch ++ [otlp] in
          if (Z.of_nat (List.length current_batch) >=? batch_size)%Z
          then stream_rows rest batch_size [] (yielded ++ [current_batch])
          else stream_rows rest batch_size current_batch yielded
      end
  end.

(** The file loop of [stream_otlp_spans]. *)
Fixpoint stream_files (batch_files : list string) (batch_size : Z)
    (yielded : list (list Payload))
  : list (list Payload) * result unit :=
  match batch_files with
  | [] => (yielded, Ok tt)
  | file_path :: rest =>
      match read_table file_path with
      | Raise e => (yielded, Raise e)
      | Ok table =>
          match stream_rows (rows table) batch_size [] yielded with
          | (yielded, Raise e) => (yielded, Raise e)
          | (yielded, Ok current_batch) =>
              let yielded :=
                match current_batch with
                | [] => yielded
                | _ :: _ => yielded ++ [current_batch]
                end in
              stream_files rest batch_size yielded
          end
      end
  end.

(** The generator run to its end: every batch it yields, in order, and
    whether it finished or raised. *)
Definition stream_otlp_spans (pattern : string) (batch_size : Z)
  : list (list Payload) * result unit :=
  stream_files (sorted (glob pattern)) batch_size [].

Definition get_trace_statistics (arrow_file : string) : result Stats :=
  table <- read_table arrow_file ;;
  let df := rows table in
  let n_total := List.length df in
  let n_traces := nunique (map (fun r => Some (trace_id r)) df) in
  services <- column_service_name table ;;
  Ok (mkStats
        n_total
        n_traces
        (nunique services)
        (value_counts (map kind df))
        (series_mean
           (map (fun r => float64_div (float64_of_int (duration_ns r))
                            (float64_of_int 1000000)) df))
        (Fin (float64_div (float64_of_int (int64_sum (map duration_ns df)))
                (float64_of_int 1000000000)))).

(** [df.groupby('trace_id')]: one group per trace id, the groups in sorted
    key order, the rows of a group in table order. *)
Definition groupby_trace_id (df : list Row) : list (string * list Row) :=
  map (fun tid => (tid, filter (fun r => String.eqb (trace_id r) tid) df))
    (sorted (unique String.eqb (map trace_id df))).

Definition is_root (r : Row) : bool :=
  String.eqb (parent_span_id r) EmptyString.

Definition training_example (t : Table) (tid : string) (group : list Row)
  : result TrainingExample :=
  services <- column_service_name (mkTable (has_service_name t) group) ;;
  let service_names := unique Label_eqb services in
  let span_names := map name group in
  let total_duration_ms :=
    Fin (float64_div (float64_of_int (int64_sum (map duration_ns group)))
           (float64_of_int 1000000)) in
  Ok (mkExample tid service_names (List.length group) span_names
        total_duration_ms
        (if existsb is_root group
         then match filter is_root group with
              | r :: _ => Some (name r)
              | [] => None
              end
         else None)).

(** The group loop of [create_training_examples]: the lines written so
    far, and how the loop ended. *)
Fixpoint examples_loop (t : Table) (groups : list (string * list Row))
    (lines : list TrainingExample) : list TrainingExample * result unit :=
  match groups with
  | [] => (lines, Ok tt)
  | (tid, group) :: rest =>
      match training_example t tid group with
      | Raise e => (lines, Raise e)
      | Ok example => examples_loop t rest (lines ++ [example])
      end
  end.

Definition create_training_examples (arrow_file output_jsonl : string)
  : list (FsEffect Payload) * result unit :=
  match read_table arrow_file with
  | Raise e => ([], Raise e)
  | Ok table =>
      let '(lines, r) := examples_loop table (groupby_trace_id (rows table)) [] in
      ([WriteJsonl output_jsonl lines], r)
  end.

(** [trace_to_service[trace_id] = service_name] for every row. *)
Definition trace_to_service_loop (t : Table) (rs : list Row)
    (trace_to_service : dict string Label) : dict string Label :=
  fold_left
    (fun tts row =>
       dict_set String.eqb tts (trace_id row) (row_get_service_name t row))
    rs trace_to_service.

(** [service_groups[service_name][trace_id].extend(spans)] for every
    trace, on a [defaultdict] of [defaultdict(list)]. *)
Definition group_by_service (trace_to_service : dict string Label)
    (traces : dict string (list Payload))
  : dict Label (dict string (list Payload)) :=
  fold_left
    (fun sg kv =>
       let service_name :=
         default (Some "unknown") (dict_get String.eqb trace_to_service (fst kv)) in
       let trace_dict := default [] (dict_get Label_eqb sg service_name) in
       dict_set Label_eqb sg service_name (dict_extend trace_dict kv))
    traces [].

(** One [ResourceSpan] per service, holding the spans of its traces. *)
Definition build_resource_spans
    (service_groups : dict Label (dict string (list Payload)))
  : list (ResourceSpan Payload) :=
  map (fun kv => resource_span (fst kv) (flat_map snd (snd kv))) service_groups.

(** The body of the [try] block of [convert_arrow_to_otlp]: [Ok None] is
    the early return on an empty trace dictionary. *)
Definition convert_body (arrow_file_path : string)
  : result (option (OtlpData Payload)) :=
  traces <- load_otlp_traces_from_arrow arrow_file_path ;;
  match traces with
  | [] => Ok None
  | _ :: _ =>
      table <- read_table arrow_file_path ;;
      let trace_to_service := trace_to_service_loop table (rows table) [] in
      let service_groups := group_by_service trace_to_service traces in
      Ok (Some (mkOtlpData (build_resource_spans service_groups)))
  end.

(** The converter: what it leaves on disk and the status it returns.
    [mkdir(exist_ok=True)] on the output directory is taken to succeed. *)
Definition convert_arrow_to_otlp (arrow_file_path output_dir : string)
  : list (FsEffect Payload) * bool :=
  if negb (path_exists arrow_file_path) then ([], false)
  else
    let output_file :=
      path_join output_dir
        (String.append (path_stem arrow_file_path) ".otlp.json") in
    match convert_body arrow_file_path with
    | Ok (Some otlp_data) =>
        ([Mkdir output_dir; WriteJson output_file otlp_data], true)
    | Ok None => ([Mkdir output_dir], false)
    | Raise _ => ([Mkdir output_dir], false)
    end.
End Program.

(** ** What the output is compared with *)

Section Reference.
Variable Payload : Type.
Variable json_loads : string -> option Payload.

(** Every payload of the table deserialized, in row order; [None] when
    some payload is malformed. *)
Fixpoint decode_rows (rs : list Row) : option (list Payload) :=
  match rs with
  | [] => Some []
  | row :: rest =>
      match json_loads (otlp_span row), decode_rows rest with
      | Some p, Some ps => Some (p :: ps)
      | _, _ => None
      end
  end.

(** The first and the last row of a trace, in table order. *)
Definition first_row_of (rs : list Row) (tid : string) : option Row :=
  find (fun r => String.eqb (trace_id r) tid) rs.

Definition last_row_of (rs : list Row) (tid : string) : option Row :=
  find (fun r => String.eqb (trace_id r) tid) (rev rs).

(** The label a trace is filed under: what its last row carries. *)
Definition service_of_trace (t : Table) (tid : string) : Label :=
  match last_row_of (rows t) tid with
  | Some r => row_get_service_name t r
  | None => Some "unknown"
  end.

(** Trace ids, and then labels, in order of first encounter. *)
Definition trace_ids (t : Table) : list string :=
  unique String.eqb (map trace_id (rows t)).

Definition service_labels (t : Table) : list Label :=
  unique Label_eqb (map (service_of_trace t) (trace_ids t)).

(** The payloads of one trace, in row order; [ps] is the list of decoded
    payloads of the table, row by row. *)
Definition trace_items (t : Table) (ps : list Payload) (tid : string)
  : list Payload :=
  map snd
    (filter (fun it => String.eqb (trace_id (fst it)) tid) (combine (rows t) ps)).

(** The payloads of one group: trace after trace. *)
Definition group_items (t : Table) (ps : list Payload) (l : Label)
  : list Payload :=
  flat_map (trace_items t ps)
    (filter (fun tid => Label_eqb (service_of_trace t tid) l) (trace_ids t)).

Definition expected_tree (t : Table) (ps : list Payload) : OtlpData Payload :=
  mkOtlpData
    (map (fun l => resource_span l (group_items t ps l)) (service_labels t)).

(** The batches of one file: they make up its payloads, none is empty or
    longer than [batch_size], and all but the last are full. *)
Definition file_batches (batch_size : Z) (payloads : list Payload)
    (batches : list (list Payload)) : Prop :=
  List.concat batches = payloads /\
  Forall (fun b => (1 <= Z.of_nat (List.length b) <= batch_size)%Z) batches /\
  (forall pre b post,
      batches = pre ++ b :: post -> post <> [] ->
      Z.of_nat (List.length b) = batch_size).

(** Eager deserialization of a list of files, file by file. *)
Fixpoint load_files (fs : string -> option Table) (files : list string)
  : result (list (list Payload)) :=
  match files with
  | [] => Ok []
  | f :: rest =>
      ps <- load_otlp_spans_from_arrow json_loads fs f ;;
      pss <- load_files fs rest ;;
      Ok (ps :: pss)
  end.
End Reference.

(** The sum of a column of integers, in unbounded arithmetic. *)
Definition exact_sum (l : list Z) : Z := fold_right Z.add 0%Z l.


(** The values an int64 holds. *)
Definition int64_range (z : Z) : Prop := (- 2 ^ 63 <= z < 2 ^ 63)%Z.

(** ** Concrete inputs for the examples *)

Module Demo.

(** A few JSON documents. *)
Inductive Json : Type :=
| JNull
| JTrue
| JFalse
| JEmptyObject
| JEmptyArray.

(** [json.loads] on the documents the examples use; any other text is
    taken as malformed. *)
Definition json_loads (s : string) : option Json :=
  if String.eqb s "null" then Some JNull
  else if String.eqb s "true" then Some JTrue
  else if String.eqb s "false" then Some JFalse
  else if String.eqb s "{}" then Some JEmptyObject
  else if String.eqb s "[]" then Some JEmptyArray
  else None.

Definition row (tid sid parent : string) (svc : option string)
    (nm : string) (dur : Z) (payload : string) : Row :=
  mkRow tid sid parent svc nm "SPAN_KIND_SERVER" dur payload.

(** One trace whose two rows name different services. *)
Definition two_services : Table :=
  mkTable true
    [ row "t1" "s0" EmptyString (Some "svcA") "GET /" 3000000 "null";
      row "t1" "s1" "s0" (Some "svcB") "db.query" 1000000 "true" ].

(** Two traces of two services, interleaved. *)
Definition interleaved : Table :=
  mkTable true
    [ row "t2" "a0" EmptyString (Some "svcB") "root2" 5 "null";
      row "t1" "b0" EmptyString (Some "svcA") "root1" 7 "true";
      row "t2" "a1" "a0" (Some "svcB") "child2" 2 "false";
      row "t3" "c0" "zz" (Some "svcB") "orphan" 1 "{}" ].

(** A null service name, an empty one, and a file without the column. *)
Definition null_service : Table :=
  mkTable true [ row "t1" "s0" EmptyString None "GET /" 10 "null" ].

Definition empty_service : Table :=
  mkTable true
    [ row "t1" "s0" EmptyString (Some EmptyString) "GET /" 10 "null";
      row "t2" "s1" EmptyString (Some "unknown") "PUT /" 10 "true" ].

Definition no_service_column : Table :=
  mkTable false [ row "t1" "s0" EmptyString None "GET /" 10 "null" ].

(** A malformed payload in the second row, and a file without rows. *)
Definition malformed : Table :=
  mkTable true
    [ row "t1" "s0" EmptyString (Some "svcA") "GET /" 10 "null";
      row "t1" "s1" "s0" (Some "svcA") "db.query" 10 "{";
      row "t2" "s2" EmptyString (Some "svcA") "PUT /" 10 "true" ].

Definition no_rows : Table := mkTable true [].

Definition fs (file_path : string) : option Table :=
  if String.eqb file_path "two_services.arrow" then Some two_services
  else if String.eqb file_path "interleaved.arrow" then Some interleaved
  else if String.eqb file_path "null_service.arrow" then Some null_service
  else if String.eqb file_path "empty_service.arrow" then Some empty_service
  else if String.eqb file_path "no_service_column.arrow" then Some no_service_column
  else if String.eqb file_path "malformed.arrow" then Some malformed
  else if String.eqb file_path "no_rows.arrow" then Some no_rows
  else None.

(** [glob.glob] in the directory of these files, on the patterns the
    examples use; it lists the matches in no particular order. *)
Definition glob (pattern : string) : list string :=
  if String.eqb pattern "[in]*.arrow"
  then ["null_service.arrow"; "interleaved.arrow";
        "no_service_column.arrow"; "no_rows.arrow"]
  else if String.eqb pattern "*_service.arrow"
       then ["null_service.arrow"; "empty_service.arrow"]
  else [].

(** [Path(p).stem] on the paths above, and [Path(d) / f]. *)
Definition path_stem (p : string) : string :=
  if String.eqb p "two_services.arrow" then "two_services"
  else if String.eqb p "interleaved.arrow" then "interleaved"
  else if String.eqb p "null_service.arrow" then "null_service"
  else if String.eqb p "empty_service.arrow" then "empty_service"
  else if String.eqb p "no_service_column.arrow" then "no_service_column"
  else if String.eqb p "malformed.arrow" then "malformed"
  else if String.eqb p "no_rows.arrow" then "no_rows"
  else p.

Definition path_join (d f : string) : string :=
  String.append d (String.append "/" f).

(** Two durations whose mean shows the rounding of float64, and two whose
    sum leaves the int64 range. *)
Definition rounding : Table :=
  mkTable true
    [ row "t1" "s0" EmptyString (Some "svcA") "GET /" 100000 "null";
      row "t1" "s1" "s0" (Some "svcA") "db.query" 200000 "true" ].

Definition overflow : Table :=
  mkTable true
    [ row "t1" "s0" EmptyString (Some "svcA") "GET /" 4611686018427387904 "null";
      row "t1" "s1" "s0" (Some "svcA") "db.query" 4611686018427387904 "true" ].

Definition durations_fs (file_path : string) : option Table :=
  if String.eqb file_path "rounding.arrow" then Some rounding
  else if String.eqb file_path "overflow.arrow" then Some overflow
  else fs file_path.

(** Adding up from left to right.  On a series of one or two values every
    order of summation gives this sum. *)
Definition sequential_sum : Summation :=
  fun l => fold_left float64_add l 0%Q.

End Demo.

(** ** Grouping loops

    The loops of the program that fill a dictionary item by item all have
    one shape: the entry of the item's key is replaced by a value computed
    from the old entry and the item. *)

Section Grouping.
Variables X K V : Type.
Variable eqb : K -> K -> bool.
Variable item_key : X -> K.
Variable upd : option V -> X -> V.

Definition group_step (d : dict K V) (x : X) : dict K V :=
  dict_set eqb d (item_key x) (upd (dict_get eqb d (item_key x)) x).

(** The items of one key, in order. *)
Definition items_of (xs : list X) (k : K) : list X :=
  filter (fun x => eqb (item_key x) k) xs.

(** Keys in order of first encounter, each with a summary [G] of its
    items. *)
Definition grouped (G : list X -> V) (xs : list X) : dict K V :=
  tabulate (fun k => G (items_of xs k)) (unique eqb (map item_key xs)).
End Grouping.

(** The step of the trace loop of the loaders, as a grouping step on the
    decoded rows. *)
Definition append_step (Payload : Type) :=
  group_step String.eqb (fun it : Row * Payload => trace_id (fst it))
    (fun o it => default [] o ++ [snd it]).


(** ** More of the program *)

(** [a[:limit]] on a list: a negative limit counts from the end. *)
Definition slice_upto (A : Type) (l : list A) (limit : Z) : list A :=
  if (0 <=? limit)%Z then firstn (Z.to_nat limit) l
  else firstn (Z.to_nat (Z.of_nat (List.length l) + limit)) l.

(** [list(range(start, stop, step))]; [None] is the [ValueError] of a zero
    step. *)
Definition py_range (start stop step : Z) : option (list Z) :=
  if (step =? 0)%Z then None
  else
    let n :=
      if (0 <? step)%Z
      then Z.max 0 ((stop - start + step - 1) / step)
      else Z.max 0 ((start - stop - step - 1) / (- step)) in
    Some (map (fun k => (start + Z.of_nat k * step)%Z) (seq 0 (Z.to_nat n))).

(** [table.slice(offset, length)], for an offset and a length that are not
    negative. *)
Definition table_slice (t : Table) (offset length : Z) : Table :=
  mkTable (has_service_name t)
    (firstn (Z.to_nat length) (skipn (Z.to_nat offset) (rows t))).

(** [table.to_pydict()]: the table column by column. *)
Record PyDict : Type := mkPyDict {
  col_trace_id : list string;
  col_span_id : list string;
  col_parent_span_id : list string;
  col_service_name : option (list (option string));
  col_name : list string;
  col_kind : list string;
  col_duration_ns : list Z;
  col_otlp_span : list string
}.

Definition to_pydict (t : Table) : PyDict :=
  mkPyDict
    (map trace_id (rows t))
    (map span_id (rows t))
    (map parent_span_id (rows t))
    (if has_service_name t then Some (map service_name (rows t)) else None)
    (map name (rows t))
    (map kind (rows t))
    (map duration_ns (rows t))
    (map otlp_span (rows t)).

(** How [stream_spans_for_training] can end badly: the reader raised, or
    [range] refused a zero step. *)
Inductive stream_exn : Type :=
| ReaderError (e : exn)
| ValueError.

Section MoreProgram.
Variable Payload : Type.
Variable json_loads : string -> option Payload.
Variable fs : string -> option Table.
Variable glob : string -> list string.
Variable path_stem : string -> string.
Variable path_join : string -> string -> string.
(** [os.path.isabs], and [Path(__file__).parent.parent]. *)
Variable is_abs : string -> bool.
Variable repo_root : string.

Definition extract_span_names (arrow_file : string) (limit : Z)
  : result (list string) :=
  table <- read_table fs arrow_file ;;
  let unique_names := slice_upto (unique String.eqb (map name (rows table))) limit in
  Ok unique_names.

(** The batches of one table of [stream_spans_for_training]. *)
Definition table_batches (table : Table) (batch_size : Z)
  : option (list PyDict) :=
  let num_rows := Z.of_nat (List.length (rows table)) in
  match py_range 0 num_rows batch_size with
  | None => None
  | Some indices =>
      Some (map (fun i =>
                   let batch :=
                     table_slice table i (Z.min batch_size (num_rows - i)) in
                   to_pydict batch)
              indices)
  end.

(** The file loop of [stream_spans_for_training]. *)
Fixpoint training_files (batch_files : list string) (batch_size : Z)
    (yielded : list PyDict) : list PyDict * option stream_exn :=
  match batch_files with
  | [] => (yielded, None)
  | file_path :: rest =>
      match read_table fs file_path with
      | Raise e => (yielded, Some (ReaderError e))
      | Ok table =>
          match table_batches table batch_size with
          | None => (yielded, Some ValueError)
          | Some batches => training_files rest batch_size (yielded ++ batches)
          end
      end
  end.

(** The generator run to its end: the batches it yields, and the exception
    that ended it, if any. *)
Definition stream_spans_for_training (pattern : string) (batch_size : Z)
  : list PyDict * option stream_exn :=
  training_files (sorted (glob pattern)) batch_size [].

(** [main] of [convert_arrow_to_otlp.py], on [sys.argv]: what it leaves on
    disk and the exit status. *)
Definition main (argv : list string) : list (FsEffect Payload) * Z :=
  match argv with
  | [] => ([], 1%Z)
  | [_] => ([], 1%Z)
  | _ :: arrow_file :: rest =>
      let output_dir :=
        match rest with
        | d :: _ => d
        | [] => "otlp_outputs"
        end in
      let arrow_file :=
        if is_abs arrow_file then arrow_file
        else path_join repo_root arrow_file in
      let (effects, success) :=
        convert_arrow_to_otlp json_loads fs path_stem path_join
          arrow_file output_dir in
      (effects, if success then 0%Z else 1%Z)
  end.
End MoreProgram.

(** ** More to compare with *)

(** The files of a list read in order and put end to end, as one table of
    rows. *)
Definition all_rows (tables : list Table) : list Row := flat_map rows tables.

(** Paths in ascending order. *)
Definition path_le (a b : string) : Prop := String.leb a b = true.

(** [dict_set d k (F (dict_get d k))], which is how every loop of the
    program fills its dictionaries. *)
Definition dict_update (K V : Type) (eqb : K -> K -> bool)
    (F : option V -> V) (d : dict K V) (k : K) : dict K V :=
  dict_set eqb d k (F (dict_get eqb d k)).

(** Whether an effect writes a file. *)
Definition writes_file (Payload : Type) (e : FsEffect Payload) : bool :=
  match e with
  | Mkdir _ => false
  | WriteJson _ _ => true
  | WriteJsonl _ _ => true
  end.

Definition Nsum (l : list nat) : nat := fold_right Nat.add 0%nat l.

(** The payloads of the rows before the first malformed one. *)
Fixpoint decoded_prefix (Payload : Type) (json_loads : string -> option Payload)
    (rs : list Row) : list Payload :=
  match rs with
  | [] => []
  | row :: rest =>
      match json_loads (otlp_span row) with
      | Some p => p :: decoded_prefix json_loads rest
      | None => []
      end
  end.

(** * Facts *)

(** ** Keys with a decidable equality *)

Lemma Label_eqb_eq (a b : Label) : Label_eqb a b = true <-> a = b.
Proof.
  destruct a as [x|], b as [y|]; simpl; split; intro H;
    try discriminate; try reflexivity.
  - apply String.eqb_eq in H. now subst.
  - injection H as ->. apply String.eqb_refl.
Qed.

Section KeyFacts.
Variable K : Type.
Variable eqb : K -> K -> bool.
Hypothesis eqb_eq : forall a b, eqb a b = true <-> a = b.

Lemma eqb_reflect (a b : K) : reflect (a = b) (eqb a b).
Proof.
  destruct (eqb a b) eqn:E; constructor.
  - now apply eqb_eq.
  - intro H. apply eqb_eq in H. congruence.
Qed.

Lemma existsb_In (k : K) (l : list K) : existsb (eqb k) l = true <-> In k l.
Proof.
  rewrite existsb_exists. split.
  - intros [x [Hin Hx]]. apply eqb_eq in Hx. now subst.
  - intro Hin. exists k. split; [assumption | now apply eqb_eq].
Qed.

Lemma existsb_not_In (k : K) (l : list K) :
  existsb (eqb k) l = false <-> ~ In k l.
Proof.
  rewrite <- existsb_In. destruct (existsb (eqb k) l); split; intro H;
    try discriminate; try reflexivity; try congruence.
Qed.

(** *** [unique] *)

Lemma In_unique (x : K) (l : list K) : In x (unique eqb l) <-> In x l.
Proof.
  induction l as [|a l IH]; simpl; [tauto|].
  rewrite filter_In, IH. split.
  - intros [H | [H _]]; auto.
  - intros [H | H]; auto.
    destruct (eqb_reflect x a) as [E | E]; [left; now subst | right].
    split; [assumption|]. destruct (eqb_reflect x a); [contradiction | reflexivity].
Qed.

Lemma NoDup_unique (l : list K) : NoDup (unique eqb l).
Proof.
  induction l as [|a l IH]; simpl; constructor.
  - rewrite filter_In. intros [_ H].
    destruct (eqb_reflect a a); [discriminate | contradiction].
  - now apply NoDup_filter.
Qed.

Lemma filter_all (A : Type) (p : A -> bool) (l : list A) :
  (forall x, In x l -> p x = true) -> filter p l = l.
Proof.
  induction l as [|a l IH]; simpl; intro H; [reflexivity|].
  rewrite (H a (or_introl eq_refl)). f_equal. apply IH. intros. apply H. now right.
Qed.

Lemma filter_none (A : Type) (p : A -> bool) (l : list A) :
  (forall x, In x l -> p x = false) -> filter p l = [].
Proof.
  induction l as [|a l IH]; simpl; intro H; [reflexivity|].
  rewrite (H a (or_introl eq_refl)). apply IH. intros. apply H. now right.
Qed.

Lemma unique_snoc (l : list K) (k : K) :
  unique eqb (l ++ [k]) =
  if existsb (eqb k) l then unique eqb l else unique eqb l ++ [k].
Proof.
  induction l as [|a l IH]; simpl; [reflexivity|].
  rewrite IH. destruct (eqb_reflect k a) as [E | E]; simpl.
  - subst a. destruct (existsb (eqb k) l); [reflexivity|].
    rewrite filter_app. simpl.
    destruct (eqb_reflect k k); [simpl | contradiction].
    now rewrite app_nil_r.
  - destruct (existsb (eqb k) l); [reflexivity|].
    rewrite filter_app. simpl.
    destruct (eqb_reflect k a); [contradiction | reflexivity].
Qed.

Lemma unique_NoDup (l : list K) : NoDup l -> unique eqb l = l.
Proof.
  induction 1 as [|a l Hnin Hnd IH]; simpl; [reflexivity|].
  rewrite IH. f_equal. apply filter_all. intros x Hx.
  destruct (eqb_reflect x a); [subst; contradiction | reflexivity].
Qed.


(** *** Dictionaries *)

Variable V : Type.

Lemma dict_get_set (d : dict K V) (k k' : K) (v : V) :
  dict_get eqb (dict_set eqb d k v) k' =
  if eqb k' k then Some v else dict_get eqb d k'.
Proof.
  induction d as [|[a b] d IH]; simpl.
  - reflexivity.
  - destruct (eqb_reflect k a) as [E | E]; simpl.
    + subst a. destruct (eqb_reflect k' k); reflexivity.
    + rewrite IH. destruct (eqb_reflect k' a) as [E' | E']; [|reflexivity].
      subst a. destruct (eqb_reflect k' k); [congruence | reflexivity].
Qed.

Lemma dict_keys_set (d : dict K V) (k : K) (v : V) :
  map fst (dict_set eqb d k v) =
  if existsb (eqb k) (map fst d) then map fst d else map fst d ++ [k].
Proof.
  induction d as [|[a b] d IH]; simpl; [reflexivity|].
  destruct (eqb k a); simpl; [reflexivity|].
  rewrite IH. now destruct (existsb (eqb k) (map fst d)).
Qed.

Lemma dict_keys_set_NoDup (d : dict K V) (k : K) (v : V) :
  NoDup (map fst d) -> NoDup (map fst (dict_set eqb d k v)).
Proof.
  intro H. rewrite dict_keys_set.
  destruct (existsb (eqb k) (map fst d)) eqn:E; [assumption|].
  apply existsb_not_In in E.
  apply NoDup_rev in H. rewrite <- (rev_involutive (map fst d ++ [k])).
  apply NoDup_rev. rewrite rev_app_distr. simpl. constructor; [|assumption].
  now rewrite <- in_rev.
Qed.

Lemma dict_get_tabulate (f : K -> V) (l : list K) (k : K) :
  dict_get eqb (tabulate f l) k = if existsb (eqb k) l then Some (f k) else None.
Proof.
  induction l as [|a l IH]; simpl; [reflexivity|].
  destruct (eqb_reflect k a); simpl; [now subst | exact IH].
Qed.

Lemma dict_set_tabulate_in (f : K -> V) (l : list K) (k : K) (v : V) :
  NoDup l -> In k l ->
  dict_set eqb (tabulate f l) k v =
  tabulate (fun k' => if eqb k' k then v else f k') l.
Proof.
  induction 1 as [|a l Hnin Hnd IH]; simpl; [tauto|].
  intros [E | Hin].
  - subst a. destruct (eqb_reflect k k); [|contradiction]. f_equal.
    apply map_ext_in. intros x Hx.
    destruct (eqb_reflect x k); [subst; contradiction | reflexivity].
  - destruct (eqb_reflect k a) as [E | E]; [subst; contradiction|].
    destruct (eqb_reflect a k); [congruence|].
    f_equal. now apply IH.
Qed.

Lemma dict_set_tabulate_out (f : K -> V) (l : list K) (k : K) (v : V) :
  ~ In k l -> dict_set eqb (tabulate f l) k v = tabulate f l ++ [(k, v)].
Proof.
  induction l as [|a l IH]; simpl; intro H; [reflexivity|].
  destruct (eqb_reflect k a); [subst; tauto|]. f_equal. apply IH. tauto.
Qed.
End KeyFacts.

(** ** The grouping loops compute [grouped] *)

Section GroupingFacts.
Variables X K V : Type.
Variable eqb : K -> K -> bool.
Hypothesis eqb_eq : forall a b, eqb a b = true <-> a = b.
Variable item_key : X -> K.
Variable upd : option V -> X -> V.
Variable G : list X -> V.
Hypothesis upd_None : forall x, upd None x = G [x].
Hypothesis upd_Some : forall xs x, upd (Some (G xs)) x = G (xs ++ [x]).

Lemma items_of_snoc (xs : list X) (x : X) (k : K) :
  items_of eqb item_key (xs ++ [x]) k =
  items_of eqb item_key xs k ++ (if eqb (item_key x) k then [x] else []).
Proof.
  unfold items_of. rewrite filter_app. simpl.
  now destruct (eqb (item_key x) k).
Qed.

Lemma items_of_absent (xs : list X) (k : K) :
  ~ In k (map item_key xs) -> items_of eqb item_key xs k = [].
Proof.
  intro H. apply filter_none. intros x Hx.
  destruct (eqb_reflect eqb eqb_eq (item_key x) k) as [E | E]; [|reflexivity].
  exfalso. apply H. rewrite <- E. now apply in_map.
Qed.

Lemma grouped_snoc (xs : list X) (x : X) :
  grouped eqb item_key G (xs ++ [x]) =
  group_step eqb item_key upd (grouped eqb item_key G xs) x.
Proof.
  unfold grouped, group_step.
  rewrite map_app. change (map item_key [x]) with [item_key x].
  rewrite (unique_snoc eqb eqb_eq).
  rewrite dict_get_tabulate by assumption.
  assert (Hu : existsb (eqb (item_key x)) (unique eqb (map item_key xs)) =
               existsb (eqb (item_key x)) (map item_key xs)).
  { destruct (existsb (eqb (item_key x)) (map item_key xs)) eqn:E.
    - apply (existsb_In eqb eqb_eq). apply (In_unique eqb eqb_eq).
      now apply (existsb_In eqb eqb_eq).
    - apply (existsb_not_In eqb eqb_eq). rewrite (In_unique eqb eqb_eq).
      now apply (existsb_not_In eqb eqb_eq). }
  rewrite Hu. destruct (existsb (eqb (item_key x)) (map item_key xs)) eqn:E.
  - apply (existsb_In eqb eqb_eq) in E.
    rewrite dict_set_tabulate_in;
      [| assumption | apply NoDup_unique; assumption
       | now apply (In_unique eqb eqb_eq)].
    apply map_ext. intro k. f_equal. rewrite items_of_snoc.
    destruct (eqb_reflect eqb eqb_eq k (item_key x)) as [E' | E'].
    + subst k. destruct (eqb_reflect eqb eqb_eq (item_key x) (item_key x));
        [|contradiction].
      now rewrite upd_Some.
    + destruct (eqb_reflect eqb eqb_eq (item_key x) k); [congruence|].
      now rewrite app_nil_r.
  - apply (existsb_not_In eqb eqb_eq) in E.
    rewrite dict_set_tabulate_out;
      [| assumption | now rewrite (In_unique eqb eqb_eq)].
    unfold tabulate. rewrite map_app. simpl. f_equal.
    + apply map_ext_in. intros k Hk. f_equal. rewrite items_of_snoc.
      destruct (eqb_reflect eqb eqb_eq (item_key x) k) as [E' | E'].
      * subst k. rewrite (In_unique eqb eqb_eq) in Hk. contradiction.
      * now rewrite app_nil_r.
    + rewrite items_of_snoc, items_of_absent by assumption.
      destruct (eqb_reflect eqb eqb_eq (item_key x) (item_key x));
        [|contradiction].
      simpl. now rewrite upd_None.
Qed.

Theorem group_loop_grouped (xs : list X) :
  fold_left (group_step eqb item_key upd) xs [] = grouped eqb item_key G xs.
Proof.
  induction xs as [|x xs IH] using rev_ind; [reflexivity|].
  now rewrite fold_left_app, IH, grouped_snoc.
Qed.
End GroupingFacts.

(** ** Lists *)

Lemma flat_map_ext_in (A B : Type) (f g : A -> list B) (l : list A) :
  (forall a, In a l -> f a = g a) -> flat_map f l = flat_map g l.
Proof.
  induction l as [|a l IH]; simpl; intro H; [reflexivity|].
  rewrite (H a (or_introl eq_refl)), IH; [reflexivity|].
  intros. apply H. now right.
Qed.

Lemma flat_map_flat_map (A B C : Type) (f : B -> list C) (g : A -> list B)
    (l : list A) :
  flat_map f (flat_map g l) = flat_map (fun a => flat_map f (g a)) l.
Proof.
  induction l as [|a l IH]; simpl; [reflexivity|].
  now rewrite flat_map_app, IH.
Qed.

Lemma flat_map_map_snd (A B C : Type) (g : A -> list (B * C)) (l : list A) :
  flat_map (fun a => map snd (g a)) l = map snd (flat_map g l).
Proof.
  induction l as [|a l IH]; simpl; [reflexivity|].
  now rewrite map_app, IH.
Qed.

Lemma flat_map_split (A B : Type) (f g : A -> list B) (l : list A) :
  Permutation (flat_map (fun a => f a ++ g a) l) (flat_map f l ++ flat_map g l).
Proof.
  induction l as [|a l IH]; simpl; [constructor|].
  rewrite IH, <- !app_assoc. apply Permutation_app_head.
  rewrite !app_assoc. apply Permutation_app_tail. apply Permutation_app_comm.
Qed.

Lemma map_fst_combine (A B : Type) (l : list A) (l' : list B) :
  List.length l = List.length l' -> map fst (combine l l') = l.
Proof.
  revert l'. induction l as [|a l IH]; intros [|b l'] H; simpl in *;
    try discriminate; [reflexivity|].
  f_equal. apply IH. lia.
Qed.

Lemma map_snd_combine (A B : Type) (l : list A) (l' : list B) :
  List.length l = List.length l' -> map snd (combine l l') = l'.
Proof.
  revert l'. induction l as [|a l IH]; intros [|b l'] H; simpl in *;
    try discriminate; [reflexivity|].
  f_equal. apply IH. lia.
Qed.

(** Splitting a list along the blocks of a concatenation it maps to. *)
Lemma concat_map_inv (A B : Type) (f : A -> B) (gs : list (list B))
    (l : list A) :
  List.concat gs = map f l ->
  exists parts, List.concat parts = l /\ map (map f) parts = gs.
Proof.
  revert l. induction gs as [|g gs IH]; simpl; intros l H.
  - destruct l; [|discriminate]. exists []. split; reflexivity.
  - symmetry in H. apply map_eq_app in H.
    destruct H as [l1 [l2 [-> [H1 H2]]]].
    destruct (IH l2 (eq_sym H2)) as [parts [Hc Hm]].
    exists (l1 :: parts). simpl. split; congruence.
Qed.

(** A rearrangement of the payloads is a rearrangement of the rows: every
    payload can be tagged with the index of the row it comes from. *)
Lemma partition_of_rows (P : Type) (groups : list (list P)) (ps : list P) :
  Permutation (List.concat groups) ps ->
  exists parts : list (list (nat * P)),
    map (map snd) parts = groups /\
    Permutation (List.concat parts) (combine (seq 0 (List.length ps)) ps).
Proof.
  intro H.
  assert (Hps : ps = map snd (combine (seq 0 (List.length ps)) ps)).
  { symmetry. apply map_snd_combine. now rewrite length_seq. }
  rewrite Hps in H.
  apply Permutation_map_inv in H. destruct H as [l [Hl Hperm]].
  destruct (concat_map_inv snd groups l Hl) as [parts [Hc Hm]].
  exists parts. split; [assumption|]. rewrite Hc. now symmetry.
Qed.

(** ** Grouping by a key is a rearrangement *)

Section GroupPerm.
Variables A K : Type.
Variable eqb : K -> K -> bool.
Hypothesis eqb_eq : forall a b, eqb a b = true <-> a = b.
Variable key_of : A -> K.

Lemma singleton_at (a : A) (k0 : K) (ks : list K) :
  NoDup ks -> In k0 ks ->
  flat_map (fun k => if eqb k0 k then [a] else []) ks = [a].
Proof.
  induction 1 as [|k ks Hnin Hnd IH]; simpl; [tauto|].
  intros [E | Hin].
  - subst k. destruct (eqb_reflect eqb eqb_eq k0 k0); [|contradiction].
    simpl. f_equal.
    rewrite (flat_map_ext_in _ (fun _ => [])).
    + clear. induction ks; simpl; auto.
    + intros k Hk.
      destruct (eqb_reflect eqb eqb_eq k0 k); [subst; contradiction | reflexivity].
  - destruct (eqb_reflect eqb eqb_eq k0 k); [subst; contradiction|].
    simpl. now apply IH.
Qed.

Theorem group_by_perm (l : list A) :
  Permutation
    (flat_map (items_of eqb key_of l) (unique eqb (map key_of l))) l.
Proof.
  induction l as [|a l IH] using rev_ind; [constructor|].
  rewrite map_app. change (map key_of [a]) with [key_of a].
  rewrite (unique_snoc eqb eqb_eq).
  destruct (existsb (eqb (key_of a)) (map key_of l)) eqn:E.
  - apply (existsb_In eqb eqb_eq) in E.
    rewrite (flat_map_ext_in _
               (fun k => items_of eqb key_of l k ++
                         (if eqb (key_of a) k then [a] else [])))
      by (intros; apply items_of_snoc).
    rewrite flat_map_split. apply Permutation_app; [exact IH|].
    rewrite singleton_at; [constructor; constructor | | ].
    + now apply NoDup_unique.
    + now apply (In_unique eqb eqb_eq).
  - apply (existsb_not_In eqb eqb_eq) in E.
    rewrite flat_map_app. simpl. rewrite app_nil_r.
    apply Permutation_app.
    + rewrite (flat_map_ext_in _ (items_of eqb key_of l)); [exact IH|].
      intros k Hk. rewrite items_of_snoc.
      destruct (eqb_reflect eqb eqb_eq (key_of a) k) as [E' | E'].
      * subst k. rewrite (In_unique eqb eqb_eq) in Hk. contradiction.
      * apply app_nil_r.
    + rewrite items_of_snoc, items_of_absent by assumption.
      destruct (eqb_reflect eqb eqb_eq (key_of a) (key_of a)); [|contradiction].
      constructor. constructor.
Qed.

(** The items of a key in a table of distinct keys. *)
Lemma items_of_tabulate (V : Type) (f : K -> V) (l : list K) (k : K) :
  NoDup l -> In k l ->
  items_of eqb fst (tabulate f l) k = [(k, f k)].
Proof.
  induction 1 as [|a l Hnin Hnd IH]; simpl; [tauto|].
  intros [E | Hin].
  - subst a. destruct (eqb_reflect eqb eqb_eq k k); [|contradiction].
    f_equal. apply filter_none. intros [k' v] Hx. simpl.
    destruct (eqb_reflect eqb eqb_eq k' k); [|reflexivity].
    subst k'. exfalso. apply Hnin.
    unfold tabulate in Hx. apply in_map_iff in Hx.
    destruct Hx as [y [Hy Hin]]. now injection Hy as -> _.
  - destruct (eqb_reflect eqb eqb_eq a k); [subst; contradiction|].
    now apply IH.
Qed.
End GroupPerm.

(** ** The loaders *)

Section LoaderFacts.
Variable Payload : Type.
Variable json_loads : string -> option Payload.
Variable fs : string -> option Table.

Lemma decode_rows_length (rs : list Row) (ps : list Payload) :
  decode_rows json_loads rs = Some ps -> List.length rs = List.length ps.
Proof.
  revert ps. induction rs as [|r rs IH]; simpl; intros ps H.
  - now injection H as <-.
  - destruct (json_loads (otlp_span r)); [|discriminate].
    destruct (decode_rows json_loads rs); [|discriminate].
    injection H as <-. simpl. f_equal. now apply IH.
Qed.

(** A malformed payload somewhere is what makes decoding fail. *)
Lemma decode_rows_none (rs : list Row) :
  decode_rows json_loads rs = None <->
  exists r, In r rs /\ json_loads (otlp_span r) = None.
Proof.
  induction rs as [|r rs IH]; simpl.
  - split; [discriminate | intros [r [[] _]]].
  - destruct (json_loads (otlp_span r)) eqn:E.
    + destruct (decode_rows json_loads rs) eqn:D.
      * split; [discriminate|]. intros [r' [[<- | Hin] Hr']]; [congruence|].
        assert (H : Some l = None) by (apply IH; now exists r').
        discriminate H.
      * split; [|reflexivity]. intros _.
        destruct (proj1 IH eq_refl) as [r' [Hin Hr']].
        exists r'. split; [now right | assumption].
    + split; [|reflexivity]. intros _. exists r. split; [now left | assumption].
Qed.

Lemma decode_rows_In (rs : list Row) (ps : list Payload) (r : Row) (p : Payload) :
  decode_rows json_loads rs = Some ps -> In r rs ->
  json_loads (otlp_span r) = Some p -> In (r, p) (combine rs ps).
Proof.
  revert ps. induction rs as [|a rs IH]; simpl; intros ps H Hin Hp; [tauto|].
  destruct (json_loads (otlp_span a)) eqn:E; [|discriminate].
  destruct (decode_rows json_loads rs) eqn:D; [|discriminate].
  injection H as <-. simpl. destruct Hin as [-> | Hin].
  - left. congruence.
  - right. now apply IH.
Qed.

Lemma spans_loop_ok (rs : list Row) (ps acc : list Payload) :
  decode_rows json_loads rs = Some ps ->
  spans_loop json_loads rs acc = Ok (acc ++ ps).
Proof.
  revert ps acc. induction rs as [|r rs IH]; simpl; intros ps acc H.
  - injection H as <-. now rewrite app_nil_r.
  - destruct (json_loads (otlp_span r)); [|discriminate].
    destruct (decode_rows json_loads rs); [|discriminate].
    injection H as <-. rewrite (IH l); [|reflexivity].
    now rewrite <- app_assoc.
Qed.

Lemma spans_loop_raise (rs : list Row) (acc : list Payload) :
  decode_rows json_loads rs = None ->
  spans_loop json_loads rs acc = Raise JSONDecodeError.
Proof.
  revert acc. induction rs as [|r rs IH]; simpl; intros acc H; [discriminate|].
  destruct (json_loads (otlp_span r)); [|reflexivity].
  destruct (decode_rows json_loads rs); [discriminate|]. now apply IH.
Qed.

Lemma traces_loop_ok (rs : list Row) (ps : list Payload)
    (d : dict string (list Payload)) :
  decode_rows json_loads rs = Some ps ->
  traces_loop json_loads rs d = Ok (fold_left (append_step (Payload:=Payload)) (combine rs ps) d).
Proof.
  revert ps d. induction rs as [|r rs IH]; simpl; intros ps d H.
  - now injection H as <-.
  - destruct (json_loads (otlp_span r)); [|discriminate].
    destruct (decode_rows json_loads rs); [|discriminate].
    injection H as <-. simpl. now apply IH.
Qed.

Lemma traces_loop_raise (rs : list Row) (d : dict string (list Payload)) :
  decode_rows json_loads rs = None ->
  traces_loop json_loads rs d = Raise JSONDecodeError.
Proof.
  revert d. induction rs as [|r rs IH]; simpl; intros d H; [discriminate|].
  destruct (json_loads (otlp_span r)); [|reflexivity].
  destruct (decode_rows json_loads rs); [discriminate|]. now apply IH.
Qed.

(** The trace dictionary: trace ids in order of first encounter, each
    with its payloads in row order. *)
Lemma load_traces_ok (arrow_file : string) (t : Table) (ps : list Payload) :
  fs arrow_file = Some t ->
  decode_rows json_loads (rows t) = Some ps ->
  load_otlp_traces_from_arrow json_loads fs arrow_file =
  Ok (tabulate (trace_items t ps) (trace_ids t)).
Proof.
  intros Hfs Hdec. unfold load_otlp_traces_from_arrow, read_table.
  rewrite Hfs. simpl. rewrite traces_loop_ok with (ps := ps) by assumption.
  f_equal. unfold append_step.
  rewrite group_loop_grouped with (G := map snd).
  - unfold grouped, trace_ids.
    rewrite <- (map_map fst trace_id), map_fst_combine
      by now apply decode_rows_length.
    reflexivity.
  - exact String.eqb_eq.
  - reflexivity.
  - intros xs x. now rewrite map_app.
Qed.

Lemma load_traces_raise (arrow_file : string) (t : Table) :
  fs arrow_file = Some t ->
  decode_rows json_loads (rows t) = None ->
  load_otlp_traces_from_arrow json_loads fs arrow_file = Raise JSONDecodeError.
Proof.
  intros Hfs Hdec. unfold load_otlp_traces_from_arrow, read_table.
  rewrite Hfs. simpl. now apply traces_loop_raise.
Qed.

Lemma load_spans_ok (arrow_file : string) (t : Table) (ps : list Payload) :
  fs arrow_file = Some t ->
  decode_rows json_loads (rows t) = Some ps ->
  load_otlp_spans_from_arrow json_loads fs arrow_file = Ok ps.
Proof.
  intros Hfs Hdec. unfold load_otlp_spans_from_arrow, read_table.
  rewrite Hfs. simpl. now rewrite spans_loop_ok with (ps := ps).
Qed.

Lemma load_spans_raise (arrow_file : string) (t : Table) :
  fs arrow_file = Some t ->
  decode_rows json_loads (rows t) = None ->
  load_otlp_spans_from_arrow json_loads fs arrow_file = Raise JSONDecodeError.
Proof.
  intros Hfs Hdec. unfold load_otlp_spans_from_arrow, read_table.
  rewrite Hfs. simpl. now apply spans_loop_raise.
Qed.
End LoaderFacts.

(** ** The converter *)

Section ConvertFacts.
Variable Payload : Type.
Variable json_loads : string -> option Payload.
Variable fs : string -> option Table.
Variable path_stem : string -> string.
Variable path_join : string -> string -> string.

(** After the loop over the rows, a trace id maps to what its last row
    carries. *)
Lemma trace_to_service_get (t : Table) (rs : list Row)
    (d : dict string Label) (tid : string) :
  dict_get String.eqb (trace_to_service_loop t rs d) tid =
  match last_row_of rs tid with
  | Some r => Some (row_get_service_name t r)
  | None => dict_get String.eqb d tid
  end.
Proof.
  unfold trace_to_service_loop, last_row_of.
  induction rs as [|r rs IH] using rev_ind; [reflexivity|].
  rewrite fold_left_app, rev_app_distr. simpl.
  rewrite (dict_get_set String.eqb String.eqb_eq), IH, String.eqb_sym.
  now destruct (String.eqb (trace_id r) tid).
Qed.

Lemma service_lookup (t : Table) (tid : string) :
  default (Some "unknown")
    (dict_get String.eqb (trace_to_service_loop t (rows t) []) tid) =
  service_of_trace t tid.
Proof.
  rewrite trace_to_service_get. unfold service_of_trace.
  now destruct (last_row_of (rows t) tid).
Qed.

Lemma extend_loop_grouped (items : list (string * list Payload)) :
  fold_left (@dict_extend Payload) items [] =
  grouped String.eqb fst (flat_map snd) items.
Proof.
  change (@dict_extend Payload)
    with (group_step String.eqb fst
            (fun o (kv : string * list Payload) => default [] o ++ snd kv)).
  apply group_loop_grouped.
  - exact String.eqb_eq.
  - intro x. simpl. now rewrite app_nil_r.
  - intros xs x. simpl. rewrite flat_map_app. simpl. now rewrite app_nil_r.
Qed.

(** The groups of the converter, from a trace dictionary with distinct
    keys: labels in order of first encounter, and under each label the
    traces filed there, one after the other. *)
Lemma service_groups_spec (tts : dict string Label)
    (f : string -> list Payload) (tids : list string) :
  NoDup tids ->
  let svc := fun tid => default (Some "unknown") (dict_get String.eqb tts tid) in
  build_resource_spans (group_by_service tts (tabulate f tids)) =
  map (fun l =>
         resource_span l
           (flat_map f (filter (fun tid => Label_eqb (svc tid) l) tids)))
    (unique Label_eqb (map svc tids)).
Proof.
  intros Hnd svc. unfold group_by_service.
  match goal with
  | |- context [fold_left ?F _ _] =>
      change F with
        (group_step Label_eqb
           (fun kv : string * list Payload => svc (fst kv))
           (fun o kv => dict_extend (default [] o) kv))
  end.
  rewrite group_loop_grouped
    with (G := fun items => fold_left (@dict_extend Payload) items []);
    [| exact Label_eqb_eq | reflexivity
     | intros xs x; now rewrite fold_left_app ].
  unfold grouped, build_resource_spans, tabulate.
  rewrite !map_map. simpl.
  apply map_ext. intro l. simpl. f_equal.
  rewrite extend_loop_grouped.
  assert (Hit : items_of Label_eqb (fun kv : string * list Payload => svc (fst kv))
                  (map (fun k => (k, f k)) tids) l =
                tabulate f (filter (fun tid => Label_eqb (svc tid) l) tids)).
  { unfold items_of, tabulate. clear Hnd.
    induction tids as [|a tl IH]; simpl; [reflexivity|].
    destruct (Label_eqb (svc a) l); simpl; now rewrite IH. }
  rewrite Hit. set (tl := filter _ tids).
  assert (Hndl : NoDup tl) by now apply NoDup_filter.
  unfold grouped.
  assert (Hk : map fst (tabulate f tl) = tl).
  { unfold tabulate. rewrite map_map. simpl. apply map_id. }
  rewrite Hk, (unique_NoDup String.eqb String.eqb_eq Hndl).
  unfold tabulate at 1. rewrite flat_map_concat_map, map_map. simpl.
  rewrite <- flat_map_concat_map.
  apply flat_map_ext_in. intros k Hin.
  rewrite (items_of_tabulate String.eqb String.eqb_eq f k Hndl Hin). simpl.
  apply app_nil_r.
Qed.

Lemma trace_ids_NoDup (t : Table) : NoDup (trace_ids t).
Proof. apply NoDup_unique. exact String.eqb_eq. Qed.

Lemma convert_body_ok (arrow_file_path : string) (t : Table)
    (ps : list Payload) :
  fs arrow_file_path = Some t ->
  decode_rows json_loads (rows t) = Some ps ->
  rows t <> [] ->
  convert_body json_loads fs arrow_file_path = Ok (Some (expected_tree t ps)).
Proof.
  intros Hfs Hdec Hne. unfold convert_body.
  rewrite (load_traces_ok json_loads fs arrow_file_path Hfs Hdec). simpl.
  destruct (tabulate (trace_items t ps) (trace_ids t)) eqn:Etab.
  - exfalso. apply Hne. unfold tabulate, trace_ids in Etab.
    apply map_eq_nil in Etab. destruct (rows t); [reflexivity|discriminate].
  - rewrite <- Etab. unfold read_table. rewrite Hfs. simpl. do 2 f_equal.
    unfold expected_tree. f_equal.
    rewrite service_groups_spec by apply trace_ids_NoDup.
    unfold service_labels.
    rewrite (map_ext _ _ (service_lookup t)).
    apply map_ext. intro l. f_equal. unfold group_items. f_equal.
    apply filter_ext. intro tid. now rewrite service_lookup.
Qed.

Lemma convert_body_empty (arrow_file_path : string) (t : Table) :
  fs arrow_file_path = Some t -> rows t = [] ->
  convert_body json_loads fs arrow_file_path = Ok None.
Proof.
  intros Hfs He. unfold convert_body, load_otlp_traces_from_arrow, read_table.
  rewrite Hfs. simpl. now rewrite He.
Qed.

Lemma convert_body_raise (arrow_file_path : string) (t : Table) :
  fs arrow_file_path = Some t ->
  decode_rows json_loads (rows t) = None ->
  convert_body json_loads fs arrow_file_path = Raise JSONDecodeError.
Proof.
  intros Hfs Hdec. unfold convert_body.
  now rewrite (load_traces_raise json_loads fs arrow_file_path Hfs Hdec).
Qed.

(** What the converter does, case by case. *)
Lemma convert_spec (arrow_file_path output_dir : string) :
  convert_arrow_to_otlp json_loads fs path_stem path_join
    arrow_file_path output_dir =
  match fs arrow_file_path with
  | None => ([], false)
  | Some t =>
      match decode_rows json_loads (rows t), rows t with
      | Some ps, _ :: _ =>
          ([Mkdir output_dir;
            WriteJson
              (path_join output_dir
                 (String.append (path_stem arrow_file_path) ".otlp.json"))
              (expected_tree t ps)], true)
      | _, _ => ([Mkdir output_dir], false)
      end
  end.
Proof.
  unfold convert_arrow_to_otlp, path_exists.
  destruct (fs arrow_file_path) as [t|] eqn:Hfs; simpl; [|reflexivity].
  destruct (decode_rows json_loads (rows t)) as [ps|] eqn:Hdec.
  - destruct (rows t) as [|r rs] eqn:Hr.
    + now rewrite convert_body_empty with (t := t).
    + rewrite convert_body_ok with (t := t) (ps := ps); trivial.
      * now rewrite Hr.
      * rewrite Hr. discriminate.
  - now rewrite convert_body_raise with (t := t).
Qed.
End ConvertFacts.

(** ** The expected tree *)

Section TreeFacts.
Variable Payload : Type.

Lemma rs_spans_resource_span (l : Label) (sp : list Payload) :
  rs_spans (resource_span l sp) = sp.
Proof. unfold rs_spans, resource_span. simpl. apply app_nil_r. Qed.

Lemma rs_labels_resource_span (l : Label) (sp : list Payload) :
  rs_labels (resource_span l sp) = [l].
Proof. reflexivity. Qed.

Lemma tree_labels_expected (t : Table) (ps : list Payload) :
  tree_labels (expected_tree t ps) = service_labels t.
Proof.
  unfold tree_labels, expected_tree. simpl.
  induction (service_labels t) as [|l ls IH]; simpl; [reflexivity|].
  now rewrite IH.
Qed.

Lemma tree_spans_expected (t : Table) (ps : list Payload) :
  tree_spans (expected_tree t ps) =
  flat_map (group_items t ps) (service_labels t).
Proof.
  unfold tree_spans, expected_tree. simpl.
  induction (service_labels t) as [|l ls IH]; simpl; [reflexivity|].
  now rewrite rs_spans_resource_span, IH.
Qed.

Lemma service_labels_NoDup (t : Table) : NoDup (service_labels t).
Proof. apply NoDup_unique. exact Label_eqb_eq. Qed.

(** Every decoded row is in the tree once. *)
Lemma tree_spans_perm (t : Table) (ps : list Payload) :
  List.length (rows t) = List.length ps ->
  Permutation (tree_spans (expected_tree t ps)) ps.
Proof.
  intro Hlen. rewrite tree_spans_expected. unfold group_items.
  rewrite <- flat_map_flat_map.
  transitivity (flat_map (trace_items t ps) (trace_ids t)).
  - apply Permutation_flat_map. unfold service_labels.
    apply (group_by_perm Label_eqb Label_eqb_eq (service_of_trace t)).
  - unfold trace_items. rewrite flat_map_map_snd.
    apply Permutation_trans with (map snd (combine (rows t) ps));
      [| now rewrite map_snd_combine].
    apply Permutation_map. unfold trace_ids.
    replace (map trace_id (rows t))
      with (map (fun it : Row * Payload => trace_id (fst it))
              (combine (rows t) ps)).
    + apply (group_by_perm String.eqb String.eqb_eq
               (fun it : Row * Payload => trace_id (fst it))).
    + rewrite <- (map_map fst trace_id). now rewrite map_fst_combine.
Qed.

(** A decoded row is in the group of the label of its trace. *)
Lemma row_in_group (t : Table) (ps : list Payload) (r : Row) (p : Payload) :
  In (r, p) (combine (rows t) ps) ->
  In (service_of_trace t (trace_id r)) (service_labels t) /\
  In p (group_items t ps (service_of_trace t (trace_id r))).
Proof.
  intro Hin.
  assert (Hr : In (trace_id r) (trace_ids t)).
  { unfold trace_ids. apply (In_unique String.eqb String.eqb_eq).
    apply in_map. now apply in_combine_l in Hin. }
  split.
  - unfold service_labels. apply (In_unique Label_eqb Label_eqb_eq).
    now apply in_map.
  - unfold group_items. apply in_flat_map. exists (trace_id r). split.
    + apply filter_In. split; [assumption|]. now apply Label_eqb_eq.
    + unfold trace_items.
      change p with (snd (r, p)). apply in_map.
      apply filter_In. split; [assumption|]. simpl. apply String.eqb_refl.
Qed.

Lemma group_in_tree (t : Table) (ps : list Payload) (l : Label) :
  In l (service_labels t) ->
  In (resource_span l (group_items t ps l)) (resourceSpans (expected_tree t ps)).
Proof.
  intro H. unfold expected_tree. simpl.
  now apply (in_map (fun l => resource_span l (group_items t ps l))).
Qed.

Lemma tree_groups (t : Table) (ps : list Payload) (rs : ResourceSpan Payload) :
  In rs (resourceSpans (expected_tree t ps)) ->
  exists l, In l (service_labels t) /\ rs = resource_span l (group_items t ps l).
Proof.
  unfold expected_tree. simpl. intro H. apply in_map_iff in H.
  destruct H as [l [<- Hl]]. now exists l.
Qed.

(** *** The merged trace dictionary of [arrow_to_otlp_json] *)

Lemma dict_extend_perm (d : dict string (list Payload))
    (kv : string * list Payload) :
  Permutation (flat_map snd (dict_extend d kv)) (flat_map snd d ++ snd kv).
Proof.
  unfold dict_extend. destruct kv as [k vs]. simpl.
  induction d as [|[k' v'] d IH]; simpl.
  - now rewrite app_nil_r.
  - destruct (String.eqb k k'); simpl.
    + rewrite <- !app_assoc. apply Permutation_app_head.
      apply Permutation_app_comm.
    + rewrite <- app_assoc. now apply Permutation_app_head.
Qed.

Lemma extend_loop_perm (items d : dict string (list Payload)) :
  Permutation (flat_map snd (fold_left (@dict_extend Payload) items d))
    (flat_map snd d ++ flat_map snd items).
Proof.
  revert d. induction items as [|kv items IH]; simpl; intro d.
  - now rewrite app_nil_r.
  - rewrite IH, dict_extend_perm, <- app_assoc. reflexivity.
Qed.

Lemma trace_resource_spans_spec (sp : list Payload) :
  trace_resource_spans sp =
  match sp with
  | [] => []
  | _ :: _ => [resource_span (Some "unknown") sp]
  end.
Proof.
  unfold trace_resource_spans.
  assert (H : forall sp acc,
             fold_left
               (fun (sg : dict Label (list Payload)) span =>
                  dict_set Label_eqb sg (Some "unknown")
                    (default [] (dict_get Label_eqb sg (Some "unknown")) ++ [span]))
               sp [(Some "unknown", acc)] = [(Some "unknown", acc ++ sp)]).
  { clear. induction sp as [|s sp IH]; intro acc; simpl.
    - now rewrite app_nil_r.
    - rewrite IH, <- app_assoc. reflexivity. }
  destruct sp as [|s sp]; [reflexivity|]. simpl. now rewrite H.
Qed.

Lemma merged_tree_spans (all_traces : dict string (list Payload)) :
  flat_map (@rs_spans Payload)
    (flat_map (fun kv => trace_resource_spans (snd kv)) all_traces) =
  flat_map snd all_traces.
Proof.
  rewrite flat_map_flat_map. apply flat_map_ext. intros [k sp]. simpl.
  rewrite trace_resource_spans_spec. destruct sp; [reflexivity|].
  simpl. now rewrite !app_nil_r.
Qed.

Lemma merged_tree_labels (all_traces : dict string (list Payload)) :
  Forall (fun rs => rs_labels rs = [Some "unknown"])
    (flat_map (fun kv => trace_resource_spans (snd kv)) all_traces).
Proof.
  apply Forall_forall. intros rs H. apply in_flat_map in H.
  destruct H as [[k sp] [_ H]]. simpl in H.
  rewrite trace_resource_spans_spec in H. destruct sp; [contradiction|].
  destruct H as [<- | []]. reflexivity.
Qed.
End TreeFacts.

(** ** The merged converter against eager loading *)

Section MergeFacts.
Variable Payload : Type.
Variable json_loads : string -> option Payload.
Variable fs : string -> option Table.

Lemma traces_perm (t : Table) (ps : list Payload) :
  List.length (rows t) = List.length ps ->
  Permutation (flat_map snd (tabulate (trace_items t ps) (trace_ids t))) ps.
Proof.
  intro Hlen.
  assert (E : forall l, flat_map snd (tabulate (trace_items t ps) l) =
                        flat_map (trace_items t ps) l).
  { induction l as [|a l IH]; simpl; [reflexivity | now rewrite IH]. }
  rewrite E. unfold trace_items. rewrite flat_map_map_snd.
  apply Permutation_trans with (map snd (combine (rows t) ps));
    [| now rewrite map_snd_combine].
  apply Permutation_map. unfold trace_ids.
  replace (map trace_id (rows t))
    with (map (fun it : Row * Payload => trace_id (fst it))
            (combine (rows t) ps)).
  - apply (group_by_perm String.eqb String.eqb_eq
             (fun it : Row * Payload => trace_id (fst it))).
  - rewrite <- (map_map fst trace_id). now rewrite map_fst_combine.
Qed.

Lemma all_traces_loop_spec (files : list string)
    (d : dict string (list Payload)) :
  match load_files json_loads fs files with
  | Ok pss =>
      exists d', all_traces_loop json_loads fs files d = Ok d' /\
                 Permutation (flat_map snd d') (flat_map snd d ++ List.concat pss)
  | Raise e => all_traces_loop json_loads fs files d = Raise e
  end.
Proof.
  revert d. induction files as [|f files IH]; simpl; intro d.
  - exists d. split; [reflexivity | now rewrite app_nil_r].
  - destruct (fs f) as [t|] eqn:Hfs.
    + destruct (decode_rows json_loads (rows t)) as [ps|] eqn:Hdec.
      * rewrite (load_spans_ok json_loads fs f Hfs Hdec).
        rewrite (load_traces_ok json_loads fs f Hfs Hdec). simpl.
        specialize (IH (fold_left (@dict_extend Payload)
                          (tabulate (trace_items t ps) (trace_ids t)) d)).
        destruct (load_files json_loads fs files) as [pss|e]; simpl.
        -- destruct IH as [d' [Hd' Hp]]. exists d'. split; [assumption|].
           rewrite Hp, extend_loop_perm, traces_perm, <- app_assoc;
             [reflexivity | eapply decode_rows_length; eassumption].
        -- exact IH.
      * rewrite (load_spans_raise json_loads fs f Hfs Hdec).
        now rewrite (load_traces_raise json_loads fs f Hfs Hdec).
    + unfold load_otlp_spans_from_arrow, load_otlp_traces_from_arrow, read_table.
      now rewrite Hfs.
Qed.

Lemma arrow_to_otlp_json_spec (files : list string) (output_file : string) :
  match load_files json_loads fs files with
  | Ok pss =>
      exists out,
        arrow_to_otlp_json json_loads fs files output_file =
          ([WriteJson output_file out], Ok tt) /\
        Forall (fun rs => rs_labels rs = [Some "unknown"]) (resourceSpans out) /\
        Permutation (tree_spans out) (List.concat pss)
  | Raise e => arrow_to_otlp_json json_loads fs files output_file = ([], Raise e)
  end.
Proof.
  pose proof (all_traces_loop_spec files []) as H.
  unfold arrow_to_otlp_json.
  destruct (load_files json_loads fs files) as [pss|e].
  - destruct H as [d' [-> Hp]].
    eexists. split; [reflexivity|]. split.
    + apply merged_tree_labels.
    + unfold tree_spans. simpl. now rewrite merged_tree_spans.
  - now rewrite H.
Qed.
End MergeFacts.

(** * Reconstruction: the claims *)

Section Reconstruction.
Variable Payload : Type.
Variable json_loads : string -> option Payload.
Variable fs : string -> option Table.
Variable path_stem : string -> string.
Variable path_join : string -> string -> string.

Lemma convert_ok (arrow_file_path output_dir : string) (t : Table)
    (ps : list Payload) :
  fs arrow_file_path = Some t ->
  decode_rows json_loads (rows t) = Some ps ->
  rows t <> [] ->
  convert_arrow_to_otlp json_loads fs path_stem path_join
      arrow_file_path output_dir =
  ([Mkdir output_dir;
    WriteJson (path_join output_dir
             (String.append (path_stem arrow_file_path) ".otlp.json")) (expected_tree t ps)],
   true).
Proof.
  intros Hfs Hdec Hne. rewrite convert_spec, Hfs, Hdec.
  destruct (rows t); [contradiction | reflexivity].
Qed.

(** C1, as the code has it: the mapping from trace id to service keeps
    the value of the LAST row of the trace (each row overwrites the entry
    of its trace), and every span of the trace is emitted in the group
    labelled with that last value. *)
Theorem trace_service_last_row_wins (arrow_file_path output_dir : string)
    (t : Table) (ps : list Payload) :
  fs arrow_file_path = Some t ->
  decode_rows json_loads (rows t) = Some ps ->
  rows t <> [] ->
  (forall tid r,
      last_row_of (rows t) tid = Some r ->
      dict_get String.eqb (trace_to_service_loop t (rows t) []) tid =
      Some (row_get_service_name t r)) /\
  exists out,
    convert_arrow_to_otlp json_loads fs path_stem path_join
      arrow_file_path output_dir =
      ([Mkdir output_dir;
        WriteJson (path_join output_dir
             (String.append (path_stem arrow_file_path) ".otlp.json")) out], true) /\
    forall r p r_last,
      In (r, p) (combine (rows t) ps) ->
      last_row_of (rows t) (trace_id r) = Some r_last ->
      exists rs,
        In rs (resourceSpans out) /\
        rs_labels rs = [row_get_service_name t r_last] /\
        In p (rs_spans rs).
Proof.
  intros Hfs Hdec Hne. split.
  - intros tid r Hlast. rewrite trace_to_service_get. now rewrite Hlast.
  - exists (expected_tree t ps). split; [now apply convert_ok|].
    intros r p r_last Hin Hlast.
    destruct (row_in_group t ps r p Hin) as [Hl Hp].
    exists (resource_span (service_of_trace t (trace_id r))
              (group_items t ps (service_of_trace t (trace_id r)))).
    split; [now apply group_in_tree|]. split.
    + rewrite rs_labels_resource_span. unfold service_of_trace.
      now rewrite Hlast.
    + now rewrite rs_spans_resource_span.
Qed.

(** C3: when the converter reconstructs a table, the spans of the tree
    are the decoded rows, none lost and none twice, and the spans of a
    group are those of the traces filed under its label, the traces in
    order of first encounter in the table and the spans of a trace in row
    order. *)
Theorem reconstruction_complete_in_order (arrow_file_path output_dir : string)
    (t : Table) (ps : list Payload) :
  fs arrow_file_path = Some t ->
  decode_rows json_loads (rows t) = Some ps ->
  rows t <> [] ->
  exists out,
    convert_arrow_to_otlp json_loads fs path_stem path_join
      arrow_file_path output_dir =
      ([Mkdir output_dir;
        WriteJson (path_join output_dir
             (String.append (path_stem arrow_file_path) ".otlp.json")) out], true) /\
    Permutation (tree_spans out) ps /\
    forall rs,
      In rs (resourceSpans out) ->
      exists l,
        rs_labels rs = [l] /\
        rs_spans rs =
          flat_map
            (fun tid =>
               map snd
                 (filter (fun it => String.eqb (trace_id (fst it)) tid)
                    (combine (rows t) ps)))
            (filter (fun tid => Label_eqb (service_of_trace t tid) l)
               (unique String.eqb (map trace_id (rows t)))).
Proof.
  intros Hfs Hdec Hne.
  exists (expected_tree t ps). split; [now apply convert_ok|]. split.
  - apply tree_spans_perm. eapply decode_rows_length; eassumption.
  - intros rs Hrs. destruct (tree_groups t ps rs Hrs) as [l [_ ->]].
    exists l. split; [reflexivity|]. now rewrite rs_spans_resource_span.
Qed.
End Reconstruction.

(** * Missing, null and empty service names; malformed payloads *)

Lemma unique_constant (A : Type) (c : Label) (l : list A) :
  unique Label_eqb (map (fun _ => c) l) =
  match l with
  | [] => []
  | _ :: _ => [c]
  end.
Proof.
  induction l as [|a l IH]; simpl; [reflexivity|].
  rewrite IH. destruct l; simpl; [reflexivity|].
  destruct (eqb_reflect Label_eqb Label_eqb_eq c c); [reflexivity | contradiction].
Qed.

Section ServiceNames.
Variable Payload : Type.
Variable json_loads : string -> option Payload.
Variable fs : string -> option Table.
Variable path_stem : string -> string.
Variable path_join : string -> string -> string.

Lemma service_of_trace_missing (t : Table) (tid : string) :
  has_service_name t = false -> service_of_trace t tid = Some "unknown".
Proof.
  intro H. unfold service_of_trace, row_get_service_name. rewrite H.
  now destruct (last_row_of (rows t) tid).
Qed.

(** C8, as the code has it.  In a file without a [service_name] column
    every span goes to the one group labelled "unknown".  When the column
    is there nothing is coalesced: a span goes to the group labelled with
    the [service_name] cell of the last row of its trace as it is, a null
    cell giving the null label and the empty string the empty label. *)
Theorem service_label_of_row (arrow_file_path output_dir : string)
    (t : Table) (ps : list Payload) :
  fs arrow_file_path = Some t ->
  decode_rows json_loads (rows t) = Some ps ->
  rows t <> [] ->
  exists out,
    convert_arrow_to_otlp json_loads fs path_stem path_join
      arrow_file_path output_dir =
      ([Mkdir output_dir;
        WriteJson (path_join output_dir
                     (String.append (path_stem arrow_file_path) ".otlp.json"))
          out], true) /\
    (has_service_name t = false ->
     exists sp,
       resourceSpans out = [resource_span (Some "unknown") sp] /\
       Permutation sp ps) /\
    (has_service_name t = true ->
     forall r p r_last,
       In (r, p) (combine (rows t) ps) ->
       last_row_of (rows t) (trace_id r) = Some r_last ->
       exists rs,
         In rs (resourceSpans out) /\
         rs_labels rs = [service_name r_last] /\
         In p (rs_spans rs)).
Proof.
  intros Hfs Hdec Hne.
  exists (expected_tree t ps). split.
  { rewrite convert_spec, Hfs, Hdec.
    destruct (rows t); [contradiction | reflexivity]. }
  split.
  - intro Hmiss. exists (group_items t ps (Some "unknown")).
    assert (Hl : service_labels t = [Some "unknown"]).
    { unfold service_labels.
      rewrite (map_ext _ (fun _ => Some "unknown"))
        by (intro; now apply service_of_trace_missing).
      rewrite unique_constant. unfold trace_ids.
      destruct (rows t); [contradiction | reflexivity]. }
    split.
    + unfold expected_tree. now rewrite Hl.
    + pose proof (tree_spans_perm t ps) as Hp.
      rewrite tree_spans_expected, Hl in Hp. simpl in Hp.
      rewrite app_nil_r in Hp. apply Hp.
      eapply decode_rows_length; eassumption.
  - intros Hcol r p r_last Hin Hlast.
    destruct (row_in_group t ps r p Hin) as [Hl Hp].
    exists (resource_span (service_of_trace t (trace_id r))
              (group_items t ps (service_of_trace t (trace_id r)))).
    split; [now apply group_in_tree|]. split.
    + rewrite rs_labels_resource_span.
      unfold service_of_trace, row_get_service_name. now rewrite Hlast, Hcol.
    + now rewrite rs_spans_resource_span.
Qed.

Lemma load_files_raise (files : list string) (f : string) (e : exn) :
  In f files ->
  load_otlp_spans_from_arrow json_loads fs f = Raise e ->
  exists e', load_files json_loads fs files = Raise e'.
Proof.
  induction files as [|g files IH]; simpl; [tauto|].
  intros [-> | Hin] Hf.
  - rewrite Hf. simpl. now exists e.
  - destruct (load_otlp_spans_from_arrow json_loads fs g) as [ps|e1]; simpl.
    + destruct (IH Hin Hf) as [e' ->]. simpl. now exists e'.
    + now exists e1.
Qed.

(** C10: a malformed payload anywhere in the file makes the eager loaders
    raise, so that no list and no dictionary is returned for the rows
    decoded before it; the single-file converter then writes no file and
    returns the failure status, and the merged converter writes nothing
    either. *)
Theorem malformed_payload_aborts (arrow_file_path output_dir : string)
    (t : Table) :
  fs arrow_file_path = Some t ->
  (exists r, In r (rows t) /\ json_loads (otlp_span r) = None) ->
  load_otlp_spans_from_arrow json_loads fs arrow_file_path =
    Raise JSONDecodeError /\
  load_otlp_traces_from_arrow json_loads fs arrow_file_path =
    Raise JSONDecodeError /\
  convert_arrow_to_otlp json_loads fs path_stem path_join
    arrow_file_path output_dir = ([Mkdir output_dir], false) /\
  (forall output_file,
      arrow_to_otlp_json json_loads fs [arrow_file_path] output_file =
      ([], Raise JSONDecodeError)) /\
  (forall arrow_files output_file,
      In arrow_file_path arrow_files ->
      exists e,
        arrow_to_otlp_json json_loads fs arrow_files output_file =
        ([], Raise e)).
Proof.
  intros Hfs Hbad. apply decode_rows_none in Hbad.
  pose proof (load_spans_raise json_loads fs arrow_file_path Hfs Hbad) as Hs.
  pose proof (load_traces_raise json_loads fs arrow_file_path Hfs Hbad) as Ht.
  repeat split; trivial.
  - rewrite convert_spec, Hfs, Hbad. reflexivity.
  - intro output_file. unfold arrow_to_otlp_json. simpl. now rewrite Ht.
  - intros arrow_files output_file Hin.
    destruct (load_files_raise arrow_files arrow_file_path Hin Hs) as [e He].
    exists e.
    pose proof (arrow_to_otlp_json_spec json_loads fs arrow_files output_file) as H.
    now rewrite He in H.
Qed.
End ServiceNames.

(** * The reconstruction claims on concrete files *)

(** C1 as stated fails: the two rows of trace [t1] name [svcA] and then
    [svcB]; the mapping keeps [svcB], and both spans are emitted under
    [svcB], not under the first-seen [svcA]. *)
Lemma first_seen_service_refuted :
  option_map (row_get_service_name Demo.two_services)
    (first_row_of (rows Demo.two_services) "t1") = Some (Some "svcA") /\
  dict_get String.eqb
    (trace_to_service_loop Demo.two_services (rows Demo.two_services) []) "t1" =
    Some (Some "svcB") /\
  convert_arrow_to_otlp Demo.json_loads Demo.fs Demo.path_stem Demo.path_join
    "two_services.arrow" "out" =
    ([Mkdir "out";
      WriteJson "out/two_services.otlp.json"
        (mkOtlpData [resource_span (Some "svcB") [Demo.JNull; Demo.JTrue]])],
     true) /\
  ~ (forall tid r,
        first_row_of (rows Demo.two_services) tid = Some r ->
        dict_get String.eqb
          (trace_to_service_loop Demo.two_services (rows Demo.two_services) [])
          tid = Some (row_get_service_name Demo.two_services r)).
Proof.
  repeat split; try reflexivity.
  intro H. specialize (H "t1" _ eq_refl). discriminate H.
Qed.

Lemma trace_service_last_row_wins_witness :
  dict_get String.eqb
    (trace_to_service_loop Demo.two_services (rows Demo.two_services) []) "t1" =
  Some (Some "svcB").
Proof.
  refine (proj1 (@trace_service_last_row_wins Demo.Json Demo.json_loads Demo.fs
                   Demo.path_stem Demo.path_join "two_services.arrow" "out"
                   Demo.two_services [Demo.JNull; Demo.JTrue] _ _ _)
            "t1"
            (Demo.row "t1" "s1" "s0" (Some "svcB") "db.query" 1000000 "true")
            _);
    [reflexivity | reflexivity | discriminate | reflexivity].
Defined.

(** C2 as stated fails on the merged converter: three traces give three
    groups with the same label. *)
Lemma merged_labels_repeat :
  exists out,
    arrow_to_otlp_json Demo.json_loads Demo.fs ["interleaved.arrow"] "o.json" =
      ([WriteJson "o.json" out], Ok tt) /\
    tree_labels out = [Some "unknown"; Some "unknown"; Some "unknown"] /\
    ~ NoDup (tree_labels out).
Proof.
  eexists. split; [reflexivity|]. split; [reflexivity|].
  intro H. inversion H as [|x l Hnin _]. apply Hnin. now left.
Qed.

Lemma reconstruction_complete_in_order_witness :
  exists out,
    convert_arrow_to_otlp Demo.json_loads Demo.fs Demo.path_stem Demo.path_join
      "interleaved.arrow" "out" =
      ([Mkdir "out"; WriteJson "out/interleaved.otlp.json" out], true) /\
    Permutation (tree_spans out)
      [Demo.JNull; Demo.JTrue; Demo.JFalse; Demo.JEmptyObject].
Proof.
  destruct (@reconstruction_complete_in_order Demo.Json Demo.json_loads Demo.fs
              Demo.path_stem Demo.path_join "interleaved.arrow" "out"
              Demo.interleaved
              [Demo.JNull; Demo.JTrue; Demo.JFalse; Demo.JEmptyObject]
              eq_refl eq_refl ltac:(discriminate)) as [out [H1 [H2 _]]].
  exists out. split; assumption.
Defined.

(** C8 as stated fails on a null cell: the span is emitted under the null
    label, and no group is labelled "unknown". *)
Lemma null_service_not_unknown :
  exists out,
    convert_arrow_to_otlp Demo.json_loads Demo.fs Demo.path_stem Demo.path_join
      "null_service.arrow" "out" =
      ([Mkdir "out"; WriteJson "out/null_service.otlp.json" out], true) /\
    resourceSpans out = [resource_span None [Demo.JNull]] /\
    ~ In (Some "unknown") (tree_labels out).
Proof.
  eexists. split; [reflexivity|]. split; [reflexivity|].
  simpl. intros [H | []]. discriminate H.
Qed.

(** The empty string is a label of its own, next to "unknown". *)
Example empty_service_kept_distinct :
  exists out,
    convert_arrow_to_otlp Demo.json_loads Demo.fs Demo.path_stem Demo.path_join
      "empty_service.arrow" "out" =
      ([Mkdir "out"; WriteJson "out/empty_service.otlp.json" out], true) /\
    resourceSpans out =
      [resource_span (Some EmptyString) [Demo.JNull];
       resource_span (Some "unknown") [Demo.JTrue]].
Proof. eexists. split; reflexivity. Qed.

Lemma service_label_of_row_witness :
  exists out,
    convert_arrow_to_otlp Demo.json_loads Demo.fs Demo.path_stem Demo.path_join
      "no_service_column.arrow" "out" =
      ([Mkdir "out"; WriteJson "out/no_service_column.otlp.json" out], true) /\
    exists sp,
      resourceSpans out = [resource_span (Some "unknown") sp] /\
      Permutation sp [Demo.JNull].
Proof.
  destruct (@service_label_of_row Demo.Json Demo.json_loads Demo.fs
              Demo.path_stem Demo.path_join "no_service_column.arrow" "out"
              Demo.no_service_column [Demo.JNull]
              eq_refl eq_refl ltac:(discriminate)) as [out [H1 [H2 _]]].
  exists out. split; [assumption|]. apply H2. reflexivity.
Defined.

Lemma malformed_payload_aborts_witness :
  load_otlp_traces_from_arrow Demo.json_loads Demo.fs "malformed.arrow" =
    Raise JSONDecodeError /\
  convert_arrow_to_otlp Demo.json_loads Demo.fs Demo.path_stem Demo.path_join
    "malformed.arrow" "out" = ([Mkdir "out"], false).
Proof.
  destruct (@malformed_payload_aborts Demo.Json Demo.json_loads Demo.fs
              Demo.path_stem Demo.path_join "malformed.arrow" "out"
              Demo.malformed eq_refl
              (ex_intro _ (Demo.row "t1" "s1" "s0" (Some "svcA") "db.query" 10 "{")
                 (conj (or_intror (or_introl eq_refl)) eq_refl)))
    as [_ [H2 [H3 _]]].
  split; assumption.
Defined.

(** * Streaming *)

Section Streaming.
Variable Payload : Type.
Variable json_loads : string -> option Payload.
Variable fs : string -> option Table.
Variable glob : string -> list string.

(** The row loop on a decodable file: full batches are yielded, what is
    left over is shorter than a batch. *)
Lemma stream_rows_ok (batch_size : Z) (rs : list Row) :
  (1 <= batch_size)%Z ->
  forall (ps current_batch : list Payload) (yielded : list (list Payload)),
    (Z.of_nat (List.length current_batch) < batch_size)%Z ->
    decode_rows json_loads rs = Some ps ->
    exists full rest,
      stream_rows json_loads rs batch_size current_batch yielded =
        (yielded ++ full, Ok rest) /\
      List.concat full ++ rest = current_batch ++ ps /\
      Forall (fun b => Z.of_nat (List.length b) = batch_size) full /\
      (Z.of_nat (List.length rest) < batch_size)%Z.
Proof.
  intro Hbs. induction rs as [|r rs IH]; simpl; intros ps cur yl Hcur Hdec.
  - injection Hdec as <-. exists [], cur. rewrite !app_nil_r.
    repeat split; trivial.
  - destruct (json_loads (otlp_span r)) as [p|]; [|discriminate].
    destruct (decode_rows json_loads rs) as [ps'|] eqn:D; [|discriminate].
    injection Hdec as <-.
    destruct (Z.of_nat (List.length (cur ++ [p])) >=? batch_size)%Z eqn:E.
    + rewrite Z.geb_leb in E. apply Z.leb_le in E.
      assert (Hlen : Z.of_nat (List.length (cur ++ [p])) = batch_size).
      { rewrite length_app in *. simpl in *. lia. }
      destruct (IH ps' [] (yl ++ [cur ++ [p]])) as [full [rest [H1 [H2 [H3 H4]]]]];
        [simpl; lia | reflexivity |].
      exists ((cur ++ [p]) :: full), rest. repeat split; trivial.
      * now rewrite H1, <- app_assoc.
      * simpl. rewrite <- !app_assoc, H2. reflexivity.
      * now constructor.
    + rewrite Z.geb_leb in E. apply Z.leb_gt in E.
      destruct (IH ps' (cur ++ [p]) yl) as [full [rest [H1 [H2 [H3 H4]]]]];
        [lia | reflexivity |].
      exists full, rest. repeat split; trivial.
      rewrite H2, <- app_assoc. reflexivity.
Qed.

Lemma stream_rows_raise (batch_size : Z) (rs : list Row)
    (current_batch : list Payload) (yielded : list (list Payload)) :
  decode_rows json_loads rs = None ->
  exists yielded',
    stream_rows json_loads rs batch_size current_batch yielded =
    (yielded', Raise JSONDecodeError).
Proof.
  revert current_batch yielded.
  induction rs as [|r rs IH]; simpl; intros cur yl H; [discriminate|].
  destruct (json_loads (otlp_span r)) as [p|]; [|now exists yl].
  destruct (decode_rows json_loads rs); [discriminate|].
  destruct (Z.of_nat (List.length (cur ++ [p])) >=? batch_size)%Z; now apply IH.
Qed.

(** The batches of one decodable file. *)
Lemma file_batches_intro (batch_size : Z) (ps rest : list Payload)
    (full : list (list Payload)) :
  (1 <= batch_size)%Z ->
  List.concat full ++ rest = ps ->
  Forall (fun b => Z.of_nat (List.length b) = batch_size) full ->
  (Z.of_nat (List.length rest) < batch_size)%Z ->
  file_batches batch_size ps
    (full ++ match rest with [] => [] | _ :: _ => [rest] end).
Proof.
  intros Hbs Hc Hfull Hrest. unfold file_batches. split; [|split].
  - rewrite concat_app. destruct rest; simpl in *; [assumption|].
    now rewrite app_nil_r.
  - apply Forall_app. split.
    + eapply Forall_impl; [|exact Hfull]. simpl. intros b Hb. lia.
    + destruct rest; constructor; [|constructor]. simpl in *. lia.
  - intros pre b post Heq Hpost.
    assert (Hin : In b full).
    { destruct rest as [|x rest].
      - rewrite app_nil_r in Heq. subst full. apply in_elt.
      - destruct (exists_last Hpost) as [post' [y ->]].
        rewrite app_comm_cons, app_assoc in Heq.
        apply app_inj_tail in Heq. destruct Heq as [-> _]. apply in_elt. }
    rewrite Forall_forall in Hfull. now apply Hfull.
Qed.

Lemma load_files_cons (f : string) (files : list string)
    (pss : list (list Payload)) :
  load_files json_loads fs (f :: files) = Ok pss ->
  exists t ps pss',
    fs f = Some t /\ decode_rows json_loads (rows t) = Some ps /\
    load_files json_loads fs files = Ok pss' /\ pss = ps :: pss'.
Proof.
  simpl. unfold load_otlp_spans_from_arrow at 1. unfold read_table.
  destruct (fs f) as [t|] eqn:Hfs; simpl; [|discriminate].
  destruct (decode_rows json_loads (rows t)) as [ps|] eqn:Hdec.
  - rewrite spans_loop_ok with (ps := ps) by assumption. simpl.
    destruct (load_files json_loads fs files) as [pss'|]; simpl; [|discriminate].
    intro H. injection H as <-. now exists t, ps, pss'.
  - rewrite spans_loop_raise by assumption. discriminate.
Qed.

Lemma stream_files_ok (batch_size : Z) (files : list string) :
  (1 <= batch_size)%Z ->
  forall (pss : list (list Payload)) (yielded : list (list Payload)),
    load_files json_loads fs files = Ok pss ->
    exists batchess,
      stream_files json_loads fs files batch_size yielded =
        (yielded ++ List.concat batchess, Ok tt) /\
      Forall2 (file_batches batch_size) pss batchess.
Proof.
  intro Hbs. induction files as [|f files IH]; intros pss yl Hload.
  - simpl in Hload. injection Hload as <-. exists []. simpl.
    rewrite app_nil_r. split; [reflexivity | constructor].
  - destruct (@load_files_cons f files pss Hload)
      as [t [ps [pss' [Hfs [Hdec [Hrest ->]]]]]].
    simpl. unfold read_table. rewrite Hfs.
    destruct (@stream_rows_ok batch_size (rows t) Hbs ps [] yl)
      as [full [rest [H1 [H2 [H3 H4]]]]]; [simpl; lia | assumption |].
    rewrite H1.
    destruct (IH pss' (match rest with
                       | [] => yl ++ full
                       | _ :: _ => (yl ++ full) ++ [rest]
                       end) Hrest) as [batchess [Hb1 Hb2]].
    exists ((full ++ match rest with [] => [] | _ :: _ => [rest] end) :: batchess).
    split.
    + rewrite Hb1. f_equal. simpl.
      destruct rest; rewrite ?app_nil_r, <- ?app_assoc; reflexivity.
    + constructor; [|assumption]. now apply file_batches_intro.
Qed.

Lemma stream_rows_decodable (batch_size : Z) (rs : list Row) (ps : list Payload) :
  decode_rows json_loads rs = Some ps ->
  forall current_batch yielded,
  exists yielded' rest,
    stream_rows json_loads rs batch_size current_batch yielded =
    (yielded', Ok rest).
Proof.
  revert ps. induction rs as [|r rs IH]; simpl; intros ps H cur yl.
  - now exists yl, cur.
  - destruct (json_loads (otlp_span r)) as [p|]; [|discriminate].
    destruct (decode_rows json_loads rs) as [ps'|]; [|discriminate].
    destruct (Z.of_nat (List.length (cur ++ [p])) >=? batch_size)%Z;
      now apply (IH ps').
Qed.

Lemma stream_files_raise (batch_size : Z) (files : list string) (e : exn) :
  forall yielded,
    load_files json_loads fs files = Raise e ->
    exists yielded',
      stream_files json_loads fs files batch_size yielded = (yielded', Raise e).
Proof.
  induction files as [|f files IH]; intros yl Hload; [discriminate|].
  simpl in *. unfold load_otlp_spans_from_arrow at 1 in Hload.
  unfold read_table in *.
  destruct (fs f) as [t|] eqn:Hfs; simpl in *.
  - destruct (decode_rows json_loads (rows t)) as [ps|] eqn:Hdec.
    + rewrite spans_loop_ok with (ps := ps) in Hload by assumption.
      simpl in Hload.
      destruct (@stream_rows_decodable batch_size (rows t) ps Hdec [] yl)
        as [yl' [rest ->]].
      apply IH. destruct (load_files json_loads fs files); [discriminate|].
      exact Hload.
    + rewrite spans_loop_raise in Hload by assumption. injection Hload as <-.
      destruct (@stream_rows_raise batch_size (rows t) [] yl Hdec) as [y ->].
      now exists y.
  - injection Hload as <-. now exists yl.
Qed.
Lemma file_batches_concat (batch_size : Z) (pss : list (list Payload))
    (batchess : list (list (list Payload))) :
  Forall2 (file_batches batch_size) pss batchess ->
  List.concat (List.concat batchess) = List.concat pss.
Proof.
  induction 1 as [|ps bs pss batchess [Hc _] _ IH]; simpl; [reflexivity|].
  now rewrite concat_app, Hc, IH.
Qed.

(** C4: for a batch size of at least one, the batches the generator yields
    are, file after file in sorted path order, the batches of that file:
    put end to end they are the payloads eager loading returns, every batch
    of a file but its last has exactly [batch_size] payloads, and no batch
    holds payloads of two files.  When eager loading raises, so does the
    generator. *)
Theorem streaming_equivalence (pattern : string) (batch_size : Z) :
  (1 <= batch_size)%Z ->
  (forall pss,
      load_files json_loads fs (sorted (glob pattern)) = Ok pss ->
      exists batchess,
        stream_otlp_spans json_loads fs glob pattern batch_size =
          (List.concat batchess, Ok tt) /\
        Forall2 (file_batches batch_size) pss batchess /\
        List.concat (List.concat batchess) = List.concat pss) /\
  (forall e,
      load_files json_loads fs (sorted (glob pattern)) = Raise e ->
      exists yielded,
        stream_otlp_spans json_loads fs glob pattern batch_size =
          (yielded, Raise e)).
Proof.
  intro Hbs. unfold stream_otlp_spans. split.
  - intros pss Hload.
    destruct (@stream_files_ok batch_size (sorted (glob pattern)) Hbs pss [] Hload)
      as [batchess [H1 H2]].
    exists batchess. split; [exact H1|]. split; [exact H2|].
    eapply file_batches_concat; eassumption.
  - intros e Hload. now apply stream_files_raise.
Qed.
End Streaming.

(** Four files, of four, no, one and one row, in batches of three: the
    first file ends on a short batch, and no batch runs into the next
    file. *)
Example stream_in_threes :
  stream_otlp_spans Demo.json_loads Demo.fs Demo.glob "[in]*.arrow" 3 =
  ([ [Demo.JNull; Demo.JTrue; Demo.JFalse]; [Demo.JEmptyObject];
     [Demo.JNull]; [Demo.JNull] ], Ok tt).
Proof. reflexivity. Qed.

Lemma streaming_equivalence_witness :
  exists batchess,
    stream_otlp_spans Demo.json_loads Demo.fs Demo.glob "[in]*.arrow" 3 =
      (List.concat batchess, Ok tt) /\
    Forall2 (file_batches 3)
      [ [Demo.JNull; Demo.JTrue; Demo.JFalse; Demo.JEmptyObject];
        [];
        [Demo.JNull];
        [Demo.JNull] ]
      batchess /\
    List.concat (List.concat batchess) =
      [Demo.JNull; Demo.JTrue; Demo.JFalse; Demo.JEmptyObject;
       Demo.JNull; Demo.JNull].
Proof.
  refine (proj1 (@streaming_equivalence Demo.Json Demo.json_loads Demo.fs
                   Demo.glob "[in]*.arrow" 3 _) _ _);
    [lia | reflexivity].
Defined.

(** * Statistics *)

Lemma dropna_Some (A : Type) (l : list A) : dropna (map Some l) = l.
Proof. induction l as [|a l IH]; simpl; [reflexivity | now rewrite IH]. Qed.

(** ** Sums of an int64 column *)

Lemma int64_wrap_add (a b : Z) :
  int64_wrap (int64_wrap a + b) = int64_wrap (a + b).
Proof.
  unfold int64_wrap. f_equal.
  replace ((a + 2 ^ 63) mod 2 ^ 64 - 2 ^ 63 + b + 2 ^ 63)%Z
    with ((a + 2 ^ 63) mod 2 ^ 64 + b)%Z by ring.
  rewrite Zplus_mod_idemp_l. f_equal. ring.
Qed.

Lemma int64_wrap_range (z : Z) : int64_range z -> int64_wrap z = z.
Proof.
  unfold int64_range, int64_wrap. intro H.
  rewrite Z.mod_small; lia.
Qed.

Lemma int64_sum_acc (l : list Z) (acc : Z) :
  fold_left (fun a z => int64_wrap (a + z)) l (int64_wrap acc) =
  int64_wrap (acc + exact_sum l).
Proof.
  revert acc. induction l as [|z l IH]; intro acc; simpl.
  - now rewrite Z.add_0_r.
  - rewrite int64_wrap_add, IH. f_equal. ring.
Qed.

(** The running int64 sum is the exact sum, wrapped around once. *)
Lemma int64_sum_wrap (l : list Z) : int64_sum l = int64_wrap (exact_sum l).
Proof.
  unfold int64_sum. change 0%Z with (int64_wrap 0) at 1.
  now rewrite int64_sum_acc.
Qed.

Section Statistics.
Context {summation : Summation}.
Variable fs : string -> option Table.


(** Without the [service_name] column the operation raises [KeyError],
    whatever the rows. *)
Lemma statistics_without_service_column (arrow_file : string) (t : Table) :
  fs arrow_file = Some t ->
  has_service_name t = false ->
  get_trace_statistics fs arrow_file = Raise KeyError.
Proof.
  intros Hfs Hcol. unfold get_trace_statistics, read_table, column_service_name.
  rewrite Hfs. simpl. now rewrite Hcol.
Qed.

(** C6, as the code has it: on a table without rows the operation never
    fails with an error of its own, there is none.  When the table has the
    [service_name] column it returns: zero spans, zero traces, zero
    services, NaN as the mean and zero as the total duration, with no
    division fault.  When the table lacks that column the lookup of the
    column raises [KeyError]. *)
Theorem statistics_on_empty_table (arrow_file : string) (t : Table) :
  fs arrow_file = Some t ->
  rows t = [] ->
  get_trace_statistics fs arrow_file =
  if has_service_name t
  then Ok (mkStats 0 0 0 [] NaN (Fin 0))
  else Raise KeyError.
Proof.
  intros Hfs Hrows.
  unfold get_trace_statistics, read_table, column_service_name.
  rewrite Hfs. simpl. destruct (has_service_name t); [|reflexivity].
  rewrite Hrows. reflexivity.
Qed.
End Statistics.



(** C6 as stated fails: on the file without rows the operation returns. *)
Lemma empty_table_statistics_returns :
  get_trace_statistics (summation := Demo.sequential_sum)
    Demo.fs "no_rows.arrow" =
    Ok (mkStats 0 0 0 [] NaN (Fin 0)) /\
  forall e,
    get_trace_statistics (summation := Demo.sequential_sum)
      Demo.fs "no_rows.arrow" <> Raise e.
Proof.
  split; [reflexivity|]. intros e H. discriminate H.
Qed.

Lemma statistics_on_empty_table_witness :
  get_trace_statistics (summation := Demo.sequential_sum)
    Demo.fs "no_rows.arrow" =
    Ok (mkStats 0 0 0 [] NaN (Fin 0)) /\
  get_trace_statistics (summation := Demo.sequential_sum)
    (fun _ => Some (mkTable false [])) "no_rows.arrow" = Raise KeyError.
Proof.
  split.
  - apply (@statistics_on_empty_table Demo.sequential_sum Demo.fs
             "no_rows.arrow" Demo.no_rows); reflexivity.
  - apply (@statistics_on_empty_table Demo.sequential_sum
             (fun _ => Some (mkTable false [])) "no_rows.arrow"
             (mkTable false [])); reflexivity.
Defined.

(** * Training examples *)

Lemma insert_sorted_perm (x : string) (l : list string) :
  Permutation (insert_sorted x l) (x :: l).
Proof.
  induction l as [|y l IH]; simpl; [reflexivity|].
  destruct (String.leb x y); [reflexivity|].
  rewrite IH. apply perm_swap.
Qed.

Lemma sorted_perm (l : list string) : Permutation (sorted l) l.
Proof.
  induction l as [|x l IH]; simpl; [constructor|].
  rewrite insert_sorted_perm. now constructor.
Qed.

Lemma root_span_find (group : list Row) :
  (if existsb is_root group
   then match filter is_root group with
        | r :: _ => Some (name r)
        | [] => None
        end
   else None) = option_map name (find is_root group).
Proof.
  induction group as [|r group IH]; simpl; [reflexivity|].
  destruct (is_root r); simpl; [reflexivity | exact IH].
Qed.

Section TrainingExamples.
Variable Payload : Type.
Variable fs : string -> option Table.

(** The line written for one trace. *)
Lemma training_example_ok (t : Table) (tid : string) (group : list Row) :
  has_service_name t = true ->
  training_example t tid group =
  Ok (mkExample tid
        (unique Label_eqb (map service_name group))
        (List.length group)
        (map name group)
        (Fin (float64_div (float64_of_int (int64_sum (map duration_ns group)))
                (float64_of_int 1000000)))
        (option_map name (find is_root group))).
Proof.
  intro Hcol. unfold training_example, column_service_name. simpl.
  rewrite Hcol. simpl. now rewrite root_span_find.
Qed.

Lemma examples_loop_ok (t : Table) (groups : list (string * list Row))
    (lines : list TrainingExample) :
  has_service_name t = true ->
  exists lines',
    examples_loop t groups lines = (lines ++ lines', Ok tt) /\
    map ex_trace_id lines' = map fst groups /\
    forall ex,
      In ex lines' ->
      exists group,
        In (ex_trace_id ex, group) groups /\
        ex_span_count ex = List.length group /\
        ex_total_duration_ms ex =
          Fin (float64_div (float64_of_int (int64_sum (map duration_ns group)))
                 (float64_of_int 1000000)) /\
        ex_root_span ex = option_map name (find is_root group).
Proof.
  intro Hcol. revert lines.
  induction groups as [|[tid group] groups IH]; intro lines; simpl.
  - exists []. rewrite app_nil_r. repeat split; trivial. intros ex [].
  - rewrite training_example_ok by assumption.
    destruct (IH (lines ++
                  [mkExample tid (unique Label_eqb (map service_name group))
                     (List.length group) (map name group)
                     (Fin (float64_div
                             (float64_of_int (int64_sum (map duration_ns group)))
                             (float64_of_int 1000000)))
                     (option_map name (find is_root group))]))
      as [lines' [H1 [H2 H3]]].
    eexists (_ :: lines'). split; [|split].
    + rewrite H1, <- app_assoc. reflexivity.
    + simpl. now rewrite H2.
    + intros ex [<- | Hin].
      * exists group. simpl. repeat split; trivial. now left.
      * destruct (H3 ex Hin) as [g [Hg Hrest]]. exists g.
        split; [now right | exact Hrest].
Qed.

(** C9, as the code has it: on a table that has the [service_name] column
    one line is written per trace; in the line of a trace, [span_count] is
    the number of its rows and [root_span] the name of the row whose
    [parent_span_id] is the empty string (the first one in table order,
    should there be several), or null when the trace has no such row.
    [total_duration_ms] is the float64 quotient by 1,000,000 of the sum of
    the trace's [duration_ns] taken in int64, which wraps around: it is the
    quotient of the exact sum when that sum fits an int64. *)
Theorem training_example_fields (arrow_file output_jsonl : string) (t : Table) :
  fs arrow_file = Some t ->
  has_service_name t = true ->
  exists lines,
    create_training_examples Payload fs arrow_file output_jsonl =
      ([WriteJsonl output_jsonl lines], Ok tt) /\
    NoDup (map ex_trace_id lines) /\
    (forall tid,
        In tid (map trace_id (rows t)) <-> In tid (map ex_trace_id lines)) /\
    forall ex,
      In ex lines ->
      let group :=
        filter (fun r => String.eqb (trace_id r) (ex_trace_id ex)) (rows t) in
      ex_span_count ex = List.length group /\
      ex_total_duration_ms ex =
        Fin (float64_div
               (float64_of_int (int64_wrap (exact_sum (map duration_ns group))))
               (float64_of_int 1000000)) /\
      (int64_range (exact_sum (map duration_ns group)) ->
       ex_total_duration_ms ex =
         Fin (float64_div (float64_of_int (exact_sum (map duration_ns group)))
                (float64_of_int 1000000))) /\
      ex_root_span ex = option_map name (find is_root group) /\
      (forall r,
          In r group ->
          parent_span_id r = EmptyString ->
          (forall r', In r' group -> parent_span_id r' = EmptyString -> r' = r) ->
          ex_root_span ex = Some (name r)) /\
      ((forall r, In r group -> parent_span_id r <> EmptyString) ->
       ex_root_span ex = None).
Proof.
  intros Hfs Hcol. unfold create_training_examples, read_table. rewrite Hfs.
  destruct (examples_loop_ok t (groupby_trace_id (rows t)) [] Hcol)
    as [lines [H1 [H2 H3]]].
  rewrite H1. simpl. exists lines. split; [reflexivity|].
  assert (Hkeys : map ex_trace_id lines =
                  sorted (unique String.eqb (map trace_id (rows t)))).
  { rewrite H2. unfold groupby_trace_id. rewrite map_map. simpl. apply map_id. }
  split; [|split].
  - rewrite Hkeys. apply (Permutation_NoDup (Permutation_sym (sorted_perm _))).
    apply NoDup_unique. exact String.eqb_eq.
  - intro tid. rewrite Hkeys. split; intro H.
    + apply (Permutation_in _ (Permutation_sym (sorted_perm _))).
      rewrite (In_unique String.eqb String.eqb_eq). exact H.
    + apply (Permutation_in _ (sorted_perm _)) in H.
      rewrite (In_unique String.eqb String.eqb_eq) in H. exact H.
  - intros ex Hex.
    set (group := filter (fun r => String.eqb (trace_id r) (ex_trace_id ex))
                    (rows t)).
    destruct (H3 ex Hex) as [g [Hg [Hc [Hd Hr]]]].
    unfold groupby_trace_id in Hg. apply in_map_iff in Hg.
    destruct Hg as [tid [Heq _]]. injection Heq as Htid Hgroup.
    assert (Eg : g = group) by (unfold group; now rewrite <- Htid).
    rewrite Eg in *. rewrite int64_sum_wrap in Hd.
    split; [exact Hc|]. split; [exact Hd|]. split; [|split; [exact Hr|split]].
    + intro Hrange. rewrite Hd, (int64_wrap_range Hrange). reflexivity.
    + intros r Hin Hroot Huniq. rewrite Hr.
      destruct (find is_root group) as [r0|] eqn:Ef.
      * apply find_some in Ef. destruct Ef as [Hin0 Hr0].
        unfold is_root in Hr0. apply String.eqb_eq in Hr0.
        simpl. now rewrite (Huniq r0 Hin0 Hr0).
      * exfalso. apply (find_none _ _ Ef) in Hin.
        unfold is_root in Hin. rewrite Hroot in Hin. discriminate Hin.
    + intro Hnone. rewrite Hr.
      destruct (find is_root group) as [r0|] eqn:Ef; [|reflexivity].
      apply find_some in Ef. destruct Ef as [Hin0 Hr0].
      unfold is_root in Hr0. apply String.eqb_eq in Hr0.
      exfalso. now apply (Hnone r0).
Qed.
End TrainingExamples.

(** C9 as stated fails once the sum leaves the int64 range.  The two rows of
    the trace last 2^62 ns each; their sum is 2^63, which an int64 does not
    hold: the sum wraps to -2^63 and the line reports -9223372036854.775 ms,
    where the sum divided by 1,000,000 is 9223372036854.775. *)
Lemma total_duration_wraps :
  create_training_examples Demo.Json Demo.durations_fs "overflow.arrow" "o.jsonl" =
    ([WriteJsonl "o.jsonl"
        [mkExample "t1" [Some "svcA"] 2 ["GET /"; "db.query"]
           (Fin (-4722366482869645 # 512)) (Some "GET /")]],
     Ok tt) /\
  Forall int64_range (map duration_ns (rows Demo.overflow)) /\
  exact_sum (map duration_ns (rows Demo.overflow)) = 9223372036854775808%Z /\
  round64 (inject_Z 9223372036854775808 / 1000000) = 4722366482869645 # 512.
Proof.
  split; [vm_compute; reflexivity|]. split.
  - repeat constructor; discriminate.
  - split; vm_compute; reflexivity.
Qed.

Lemma training_example_fields_witness :
  exists lines ex,
    create_training_examples Demo.Json Demo.fs "interleaved.arrow" "o.jsonl" =
      ([WriteJsonl "o.jsonl" lines], Ok tt) /\
    NoDup (map ex_trace_id lines) /\
    In ex lines /\
    ex_trace_id ex = "t2" /\
    ex_span_count ex = 2%nat /\
    ex_total_duration_ms ex = Fin (8264141345021879 # 1180591620717411303424) /\
    ex_root_span ex = Some "root2".
Proof.
  destruct (@training_example_fields Demo.Json Demo.fs "interleaved.arrow"
              "o.jsonl" Demo.interleaved eq_refl eq_refl)
    as [lines [H1 [H2 [H3 H4]]]].
  assert (Hin : In "t2" (map ex_trace_id lines)).
  { apply H3. simpl. now left. }
  apply in_map_iff in Hin. destruct Hin as [ex [Hid Hin]].
  exists lines, ex. split; [exact H1|]. split; [exact H2|].
  split; [exact Hin|]. split; [exact Hid|].
  destruct (H4 ex Hin) as [Hc [Hd [_ [Hr _]]]].
  rewrite Hid in Hc, Hd, Hr.
  split; [exact Hc|]. split; [|exact Hr].
  rewrite Hd. vm_compute. reflexivity.
Defined.

(** * Paths and patterns that match nothing *)

Section NotFound.
Context {summation : Summation}.
Variable Payload : Type.
Variable json_loads : string -> option Payload.
Variable fs : string -> option Table.
Variable glob : string -> list string.
Variable path_stem : string -> string.
Variable path_join : string -> string -> string.

(** C7, as the code has it.  A pattern that matches no file makes
    [load_all_arrow_batches] raise [FileNotFoundError], while the streaming
    generator ends at once without a batch and without an error.  A path
    that does not exist makes the converter return its failure status with
    nothing created, and makes the operations that read the file raise
    [FileNotFoundError]; nothing is written. *)
Theorem nothing_matched :
  (forall pattern,
      glob pattern = [] ->
      load_all_arrow_batches fs glob pattern = Raise FileNotFoundError /\
      forall batch_size,
        stream_otlp_spans json_loads fs glob pattern batch_size = ([], Ok tt)) /\
  (forall file_path,
      fs file_path = None ->
      (forall output_dir,
          convert_arrow_to_otlp json_loads fs path_stem path_join
            file_path output_dir = ([], false)) /\
      load_otlp_spans_from_arrow json_loads fs file_path =
        Raise FileNotFoundError /\
      load_otlp_traces_from_arrow json_loads fs file_path =
        Raise FileNotFoundError /\
      get_trace_statistics fs file_path = Raise FileNotFoundError /\
      (forall output_file,
          arrow_to_otlp_json json_loads fs [file_path] output_file =
          ([], Raise FileNotFoundError)) /\
      (forall output_jsonl,
          create_training_examples Payload fs file_path output_jsonl =
          ([], Raise FileNotFoundError))).
Proof.
  split.
  - intros pattern Hglob. unfold load_all_arrow_batches, stream_otlp_spans.
    rewrite Hglob. split; reflexivity.
  - intros file_path Hfs.
    unfold convert_arrow_to_otlp, path_exists, load_otlp_spans_from_arrow,
      load_otlp_traces_from_arrow, get_trace_statistics, arrow_to_otlp_json,
      create_training_examples.
    simpl. unfold load_otlp_traces_from_arrow, read_table. rewrite Hfs.
    repeat split; reflexivity.
Qed.
End NotFound.

(** C7 as stated fails on the streaming path: the pattern matches no file
    and the generator ends normally, with no batch and no error. *)
Lemma stream_of_nothing_ends_normally :
  Demo.glob "missing*.arrow" = [] /\
  stream_otlp_spans Demo.json_loads Demo.fs Demo.glob "missing*.arrow" 32 =
    ([], Ok tt) /\
  forall e,
    snd (stream_otlp_spans Demo.json_loads Demo.fs Demo.glob "missing*.arrow" 32)
    <> Raise e.
Proof.
  split; [reflexivity|]. split; [reflexivity|]. intros e H. discriminate H.
Qed.

Lemma nothing_matched_witness :
  load_all_arrow_batches Demo.fs Demo.glob "missing*.arrow" =
    Raise FileNotFoundError /\
  convert_arrow_to_otlp Demo.json_loads Demo.fs Demo.path_stem Demo.path_join
    "missing.arrow" "out" = ([], false).
Proof.
  pose proof (@nothing_matched Demo.sequential_sum Demo.Json Demo.json_loads
                Demo.fs Demo.glob Demo.path_stem Demo.path_join) as [H1 H2].
  split.
  - apply (H1 "missing*.arrow"). reflexivity.
  - apply (H2 "missing.arrow"). reflexivity.
Defined.

(** * More properties of the program *)

(** ** Path order and [sorted] *)

Lemma ascii_compare_trans (a b c : ascii) (o : comparison) :
  Ascii.compare a b = o -> Ascii.compare b c = o -> Ascii.compare a c = o.
Proof.
  unfold Ascii.compare. intros H1 H2. destruct o.
  - apply N.compare_eq_iff in H1. apply N.compare_eq_iff in H2.
    apply N.compare_eq_iff. congruence.
  - apply N.compare_lt_iff in H1. apply N.compare_lt_iff in H2.
    apply N.compare_lt_iff. now apply N.lt_trans with (N_of_ascii b).
  - apply N.compare_gt_iff in H1. apply N.compare_gt_iff in H2.
    apply N.compare_gt_iff. now apply N.lt_trans with (N_of_ascii b).
Qed.

Lemma string_compare_lt_trans (s1 s2 s3 : string) :
  String.compare s1 s2 = Lt -> String.compare s2 s3 = Lt ->
  String.compare s1 s3 = Lt.
Proof.
  revert s2 s3. induction s1 as [|a s1 IH]; intros [|b s2] [|c s3]; simpl;
    try discriminate; try reflexivity.
  destruct (Ascii.compare a b) eqn:Eab; try discriminate;
    destruct (Ascii.compare b c) eqn:Ebc; try discriminate; intros H1 H2.
  - rewrite (ascii_compare_trans _ _ _ Eab Ebc). now apply (IH s2).
  - apply Ascii.compare_eq_iff in Eab. subst b. now rewrite Ebc.
  - apply Ascii.compare_eq_iff in Ebc. subst c. now rewrite Eab.
  - now rewrite (ascii_compare_trans _ _ _ Eab Ebc).
Qed.

Lemma path_le_trans (a b c : string) : path_le a b -> path_le b c -> path_le a c.
Proof.
  unfold path_le, String.leb. intros H1 H2.
  destruct (String.compare a b) eqn:Eab; try discriminate;
    destruct (String.compare b c) eqn:Ebc; try discriminate.
  - apply String.compare_eq_iff in Eab. subst b. now rewrite Ebc.
  - apply String.compare_eq_iff in Eab. subst. now rewrite Ebc.
  - apply String.compare_eq_iff in Ebc. subst. now rewrite Eab.
  - now rewrite (string_compare_lt_trans _ _ _ Eab Ebc).
Qed.

Lemma insert_sorted_sorted (x : string) (l : list string) :
  StronglySorted path_le l -> StronglySorted path_le (insert_sorted x l).
Proof.
  induction 1 as [|y l Hs IH Hy]; simpl.
  - repeat constructor.
  - destruct (String.leb x y) eqn:E.
    + constructor; [now constructor|]. constructor; [exact E|].
      eapply Forall_impl; [|exact Hy]. intros z Hz.
      now apply path_le_trans with y.
    + constructor; [assumption|].
      apply (Permutation_Forall (Permutation_sym (insert_sorted_perm x l))).
      constructor; [|assumption].
      destruct (String.leb_total x y) as [H | H]; [congruence | exact H].
Qed.

Lemma sorted_sorted (l : list string) : StronglySorted path_le (sorted l).
Proof.
  induction l as [|x l IH]; simpl; [constructor|].
  now apply insert_sorted_sorted.
Qed.

(** Two ascending lists with the same elements are the same list. *)
Lemma ascending_unique (l1 l2 : list string) :
  StronglySorted path_le l1 -> StronglySorted path_le l2 ->
  Permutation l1 l2 -> l1 = l2.
Proof.
  intro H1. revert l2. induction H1 as [|a l1 Hs1 IH Ha]; intros l2 H2 Hp.
  - apply Permutation_nil in Hp. now subst.
  - destruct H2 as [|b l2 Hs2 Hb].
    + apply Permutation_sym, Permutation_nil in Hp. discriminate.
    + assert (Hab : a = b).
      { assert (Hin1 : In a (b :: l2))
          by (apply (Permutation_in _ Hp); now left).
        assert (Hin2 : In b (a :: l1))
          by (apply (Permutation_in _ (Permutation_sym Hp)); now left).
        destruct Hin1 as [-> | Hin1]; [reflexivity|].
        destruct Hin2 as [-> | Hin2]; [reflexivity|].
        rewrite Forall_forall in Ha, Hb.
        apply String.leb_antisym; [now apply Ha | now apply Hb]. }
      subst b. f_equal. apply IH; [assumption|].
      now apply Permutation_cons_inv in Hp.
Qed.

Lemma sorted_of_permutation (l1 l2 : list string) :
  Permutation l1 l2 -> sorted l1 = sorted l2.
Proof.
  intro Hp. apply ascending_unique; try apply sorted_sorted.
  rewrite !sorted_perm. exact Hp.
Qed.

(** ** Loading one file, and all files of a pattern *)

Lemma length_unique_le (K : Type) (eqb : K -> K -> bool) (l : list K) :
  (List.length (unique eqb l) <= List.length l)%nat.
Proof.
  induction l as [|a l IH]; simpl; [lia|].
  pose proof (filter_length_le (fun y => negb (eqb y a)) (unique eqb l)). lia.
Qed.

Lemma In_combine_row (A B : Type) (l : list A) (l' : list B) (a : A) :
  List.length l = List.length l' -> In a l -> exists b, In (a, b) (combine l l').
Proof.
  revert l'. induction l as [|x l IH]; intros [|y l'] Hlen Hin; simpl in *;
    try discriminate; [tauto|].
  destruct Hin as [-> | Hin].
  - exists y. now left.
  - destruct (IH l' ltac:(lia) Hin) as [b Hb]. exists b. now right.
Qed.

Section MoreLoaders.
Variable Payload : Type.
Variable json_loads : string -> option Payload.
Variable fs : string -> option Table.

Lemma decode_rows_rowwise (rs : list Row) (ps : list Payload) :
  decode_rows json_loads rs = Some ps <->
  map (fun r => json_loads (otlp_span r)) rs = map Some ps.
Proof.
  revert ps. induction rs as [|r rs IH]; intro ps; simpl.
  - split; intro H.
    + now injection H as <-.
    + destruct ps; [reflexivity | discriminate].
  - destruct (json_loads (otlp_span r)) as [p|].
    + destruct (decode_rows json_loads rs) as [ps'|] eqn:D.
      * split; intro H.
        -- injection H as <-. simpl. f_equal. now apply IH.
        -- destruct ps as [|q ps]; [discriminate|]. simpl in H.
           injection H as -> H. apply IH in H. congruence.
      * split; [discriminate|]. intro H.
        destruct ps as [|q ps]; [discriminate|]. simpl in H.
        injection H as _ H. apply IH in H. discriminate.
    + split; [discriminate|]. intro H. destruct ps; discriminate.
Qed.

(** X1: [load_otlp_spans_from_arrow] returns a list exactly when the file
    exists and every payload decodes, and the list is then the decoded
    payloads row by row, in row order. *)
Theorem load_spans_rowwise (arrow_file : string) (ps : list Payload) :
  load_otlp_spans_from_arrow json_loads fs arrow_file = Ok ps <->
  exists t,
    fs arrow_file = Some t /\
    map (fun r => json_loads (otlp_span r)) (rows t) = map Some ps.
Proof.
  unfold load_otlp_spans_from_arrow, read_table. split.
  - destruct (fs arrow_file) as [t|]; simpl; [|discriminate].
    intro H. exists t. split; [reflexivity|]. apply decode_rows_rowwise.
    destruct (decode_rows json_loads (rows t)) as [ps'|] eqn:D.
    + rewrite spans_loop_ok with (ps := ps') in H by assumption.
      simpl in H. congruence.
    + rewrite spans_loop_raise in H by assumption. discriminate.
  - intros [t [-> H]]. simpl. apply decode_rows_rowwise in H.
    now rewrite spans_loop_ok with (ps := ps).
Qed.

Lemma load_traces_inv (arrow_file : string)
    (traces : dict string (list Payload)) :
  load_otlp_traces_from_arrow json_loads fs arrow_file = Ok traces ->
  exists t ps,
    fs arrow_file = Some t /\ decode_rows json_loads (rows t) = Some ps /\
    traces = tabulate (trace_items t ps) (trace_ids t).
Proof.
  intro H. destruct (fs arrow_file) as [t|] eqn:Hfs.
  - destruct (decode_rows json_loads (rows t)) as [ps|] eqn:D.
    + rewrite (load_traces_ok json_loads fs arrow_file Hfs D) in H.
      injection H as <-. now exists t, ps.
    + rewrite (load_traces_raise json_loads fs arrow_file Hfs D) in H.
      discriminate.
  - unfold load_otlp_traces_from_arrow, read_table in H. rewrite Hfs in H.
    discriminate.
Qed.

Lemma trace_items_nonempty (t : Table) (ps : list Payload) (tid : string) :
  List.length (rows t) = List.length ps ->
  In tid (trace_ids t) -> trace_items t ps tid <> [].
Proof.
  intros Hlen Hin. unfold trace_ids in Hin.
  rewrite (In_unique String.eqb String.eqb_eq) in Hin.
  apply in_map_iff in Hin. destruct Hin as [r [<- Hr]].
  destruct (In_combine_row (rows t) ps r Hlen Hr) as [p Hp].
  unfold trace_items. intro H.
  assert (Hin : In p (map snd
                        (filter (fun it : Row * Payload =>
                                   String.eqb (trace_id (fst it)) (trace_id r))
                           (combine (rows t) ps)))).
  { change p with (snd (r, p)). apply in_map. apply filter_In.
    split; [assumption|]. simpl. apply String.eqb_refl. }
  rewrite H in Hin. exact Hin.
Qed.

(** X2: the dictionary [load_otlp_traces_from_arrow] returns has one key per
    trace id of the table, in order of first encounter and without
    repetition; looking a trace id up gives the decoded payloads of its
    rows in row order, never an empty list, and any other key is absent. *)
Theorem load_traces_lookup (arrow_file : string)
    (traces : dict string (list Payload)) :
  load_otlp_traces_from_arrow json_loads fs arrow_file = Ok traces ->
  exists t ps,
    fs arrow_file = Some t /\
    map (fun r => json_loads (otlp_span r)) (rows t) = map Some ps /\
    map fst traces = unique String.eqb (map trace_id (rows t)) /\
    NoDup (map fst traces) /\
    (forall tid,
        In tid (map trace_id (rows t)) ->
        dict_get String.eqb traces tid =
          Some (map snd
                  (filter (fun it => String.eqb (trace_id (fst it)) tid)
                     (combine (rows t) ps)))) /\
    (forall tid,
        ~ In tid (map trace_id (rows t)) ->
        dict_get String.eqb traces tid = None) /\
    Forall (fun kv => snd kv <> []) traces.
Proof.
  intro H. destruct (load_traces_inv _ H) as [t [ps [Hfs [Hdec ->]]]].
  exists t, ps. split; [assumption|].
  split; [now apply decode_rows_rowwise|].
  assert (Hk : map fst (tabulate (trace_items t ps) (trace_ids t)) = trace_ids t).
  { unfold tabulate. rewrite map_map. apply map_id. }
  split; [exact Hk|]. split; [rewrite Hk; apply trace_ids_NoDup|].
  split; [|split].
  - intros tid Hin. rewrite (dict_get_tabulate String.eqb String.eqb_eq).
    assert (E : existsb (String.eqb tid) (trace_ids t) = true).
    { apply (existsb_In String.eqb String.eqb_eq). unfold trace_ids.
      now rewrite (In_unique String.eqb String.eqb_eq). }
    now rewrite E.
  - intros tid Hnin. rewrite (dict_get_tabulate String.eqb String.eqb_eq).
    assert (E : existsb (String.eqb tid) (trace_ids t) = false).
    { apply (existsb_not_In String.eqb String.eqb_eq). unfold trace_ids.
      now rewrite (In_unique String.eqb String.eqb_eq). }
    now rewrite E.
  - apply Forall_forall. intros [tid sp] Hin. simpl.
    unfold tabulate in Hin. apply in_map_iff in Hin.
    destruct Hin as [k [Hk' Hin]]. injection Hk' as -> <-.
    apply trace_items_nonempty; [|assumption].
    eapply decode_rows_length; eassumption.
Qed.

(** X3: the two loaders of one file end the same way: they raise the same
    exception, or they both return, and then the lists of the dictionary
    put end to end are a rearrangement of the list of spans. *)
Theorem loaders_agree (arrow_file : string) :
  match load_otlp_spans_from_arrow json_loads fs arrow_file,
        load_otlp_traces_from_arrow json_loads fs arrow_file with
  | Ok ps, Ok traces =>
      Permutation (flat_map snd traces) ps /\
      List.length (flat_map snd traces) = List.length ps
  | Raise e, Raise e' => e = e'
  | _, _ => False
  end.
Proof.
  destruct (fs arrow_file) as [t|] eqn:Hfs.
  - destruct (decode_rows json_loads (rows t)) as [ps|] eqn:D.
    + rewrite (load_spans_ok json_loads fs arrow_file Hfs D).
      rewrite (load_traces_ok json_loads fs arrow_file Hfs D).
      assert (Hp : Permutation
                     (flat_map snd (tabulate (trace_items t ps) (trace_ids t))) ps).
      { apply traces_perm. eapply decode_rows_length; eassumption. }
      split; [exact Hp | now apply Permutation_length].
    + rewrite (load_spans_raise json_loads fs arrow_file Hfs D).
      now rewrite (load_traces_raise json_loads fs arrow_file Hfs D).
  - unfold load_otlp_spans_from_arrow, load_otlp_traces_from_arrow, read_table.
    now rewrite Hfs.
Qed.
End MoreLoaders.

Lemma load_traces_lookup_witness :
  exists t ps,
    Demo.fs "interleaved.arrow" = Some t /\
    map (fun r => Demo.json_loads (otlp_span r)) (rows t) = map Some ps /\
    map fst
      [("t2", [Demo.JNull; Demo.JFalse]); ("t1", [Demo.JTrue]);
       ("t3", [Demo.JEmptyObject])] =
      unique String.eqb (map trace_id (rows t)).
Proof.
  destruct (@load_traces_lookup Demo.Json Demo.json_loads Demo.fs
              "interleaved.arrow"
              [("t2", [Demo.JNull; Demo.JFalse]); ("t1", [Demo.JTrue]);
               ("t3", [Demo.JEmptyObject])] eq_refl)
    as [t [ps [H1 [H2 [H3 _]]]]].
  exists t, ps. repeat split; assumption.
Defined.

Section LoadAll.
Variable fs : string -> option Table.

Lemma read_tables_ok (files : list string) (tables acc : list Table) :
  Forall2 (fun f t => fs f = Some t) files tables ->
  read_tables fs files acc = Ok (acc ++ tables).
Proof.
  intro H. revert acc. induction H as [|f t files tables Hf _ IH]; intro acc; simpl.
  - now rewrite app_nil_r.
  - unfold read_table. rewrite Hf. simpl. rewrite IH, <- app_assoc. reflexivity.
Qed.


(** X4: when every file the pattern matches can be read,
    [load_all_arrow_batches] returns the rows of the files put end to end,
    the files taken in ascending path order, provided the files agree on
    their columns; it raises [ArrowInvalid] when two of them do not. *)
Theorem load_all_concatenates (glob : string -> list string) (pattern : string)
    (tables : list Table) :
  glob pattern <> [] ->
  Forall2 (fun f t => fs f = Some t) (sorted (glob pattern)) tables ->
  StronglySorted path_le (sorted (glob pattern)) /\
  (forall flag,
      (forall t, In t tables -> has_service_name t = flag) ->
      load_all_arrow_batches fs glob pattern =
      Ok (mkTable flag (flat_map rows tables))) /\
  ((exists t1 t2,
       In t1 tables /\ In t2 tables /\
       has_service_name t1 <> has_service_name t2) ->
   load_all_arrow_batches fs glob pattern = Raise ArrowInvalid).
Proof.
  intros Hne Hall. split; [apply sorted_sorted|].
  unfold load_all_arrow_batches.
  destruct (sorted (glob pattern)) as [|f files] eqn:Es.
  { exfalso. apply Hne.
    apply Permutation_nil. rewrite <- Es. apply sorted_perm. }
  rewrite (read_tables_ok [] Hall). simpl.
  inversion Hall as [|f' t0 files' ts Hf Hrest E1 E2]. subst. simpl.
  split.
  - intros flag Hflag.
    assert (E : forallb
                  (fun t' => Bool.eqb (has_service_name t') (has_service_name t0))
                  ts = true).
    { apply forallb_forall. intros t' Hin.
      rewrite (Hflag t' (or_intror Hin)), (Hflag t0 (or_introl eq_refl)).
      apply Bool.eqb_reflx. }
    rewrite E. now rewrite (Hflag t0 (or_introl eq_refl)).
  - intros [t1 [t2 [H1 [H2 Hdiff]]]].
    destruct (forallb
                (fun t' => Bool.eqb (has_service_name t') (has_service_name t0))
                ts) eqn:E; [|reflexivity].
    exfalso. apply Hdiff. rewrite forallb_forall in E.
    assert (Hsame : forall t, In t (t0 :: ts) ->
                              has_service_name t = has_service_name t0).
    { intros t [<- | Hin]; [reflexivity|]. apply Bool.eqb_prop. now apply E. }
    now rewrite (Hsame t1 H1), (Hsame t2 H2).
Qed.


End LoadAll.

Section MoreBatches.
Variable Payload : Type.
Variable json_loads : string -> option Payload.
Variable fs : string -> option Table.

(** X6: the order in which [glob] lists the matches has no effect: two
    listings of the same files give the same table, the same batches of
    spans and the same batches of rows. *)
Theorem glob_listing_order_irrelevant (glob1 glob2 : string -> list string)
    (pattern : string) (batch_size : Z) :
  Permutation (glob1 pattern) (glob2 pattern) ->
  load_all_arrow_batches fs glob1 pattern =
    load_all_arrow_batches fs glob2 pattern /\
  stream_otlp_spans json_loads fs glob1 pattern batch_size =
    stream_otlp_spans json_loads fs glob2 pattern batch_size /\
  stream_spans_for_training fs glob1 pattern batch_size =
    stream_spans_for_training fs glob2 pattern batch_size.
Proof.
  intro Hp. unfold load_all_arrow_batches, stream_otlp_spans,
    stream_spans_for_training.
  rewrite (sorted_of_permutation Hp). repeat split; reflexivity.
Qed.

Lemma stream_rows_singletons (batch_size : Z) (rs : list Row)
    (ps : list Payload) (yielded : list (list Payload)) :
  (batch_size <= 0)%Z ->
  decode_rows json_loads rs = Some ps ->
  stream_rows json_loads rs batch_size [] yielded =
  (yielded ++ map (fun p => [p]) ps, Ok []).
Proof.
  intro Hbs. revert ps yielded.
  induction rs as [|r rs IH]; simpl; intros ps yl H.
  - injection H as <-. now rewrite app_nil_r.
  - destruct (json_loads (otlp_span r)) as [p|]; [|discriminate].
    destruct (decode_rows json_loads rs) as [ps'|]; [|discriminate].
    injection H as <-.
    assert (E : (1 >=? batch_size)%Z = true).
    { rewrite Z.geb_leb. apply Z.leb_le. lia. }
    rewrite E, (IH ps'), <- app_assoc; reflexivity.
Qed.

(** X7: with a batch size of zero or less the streaming generator yields every
    payload in a batch of its own. *)
Theorem stream_nonpositive_batch_size (glob : string -> list string)
    (pattern : string) (batch_size : Z) (pss : list (list Payload)) :
  (batch_size <= 0)%Z ->
  load_files json_loads fs (sorted (glob pattern)) = Ok pss ->
  stream_otlp_spans json_loads fs glob pattern batch_size =
  (map (fun p => [p]) (List.concat pss), Ok tt).
Proof.
  intros Hbs. unfold stream_otlp_spans.
  assert (H : forall files pss yl,
             load_files json_loads fs files = Ok pss ->
             stream_files json_loads fs files batch_size yl =
             (yl ++ map (fun p => [p]) (List.concat pss), Ok tt)).
  { induction files as [|f files IH]; intros pss' yl Hload.
    - simpl in Hload. injection Hload as <-. simpl. now rewrite app_nil_r.
    - destruct (@load_files_cons Payload json_loads fs f files pss' Hload)
        as [t [ps [pss'' [Hfs [Hdec [Hrest ->]]]]]].
      simpl. unfold read_table. rewrite Hfs.
      rewrite (stream_rows_singletons (rows t) yl Hbs Hdec).
      rewrite (IH pss'' _ Hrest), map_app, <- app_assoc. reflexivity. }
  intro Hload. now rewrite (H _ pss []).
Qed.
End MoreBatches.

Lemma load_all_concatenates_witness :
  load_all_arrow_batches Demo.fs Demo.glob "*_service.arrow" =
  Ok (mkTable true (rows Demo.empty_service ++ rows Demo.null_service)).
Proof.
  refine (proj1 (proj2 (@load_all_concatenates Demo.fs Demo.glob
                          "*_service.arrow"
                          [Demo.empty_service; Demo.null_service] _ _))
            true _).
  - discriminate.
  - repeat constructor.
  - intros t [<- | [<- | []]]; reflexivity.
Defined.


Lemma glob_listing_order_irrelevant_witness :
  stream_otlp_spans Demo.json_loads Demo.fs Demo.glob "[in]*.arrow" 3 =
  stream_otlp_spans Demo.json_loads Demo.fs
    (fun p => rev (Demo.glob p)) "[in]*.arrow" 3.
Proof.
  apply (@glob_listing_order_irrelevant Demo.Json Demo.json_loads Demo.fs
           Demo.glob (fun p => rev (Demo.glob p)) "[in]*.arrow" 3).
  apply Permutation_rev.
Defined.

Lemma stream_nonpositive_batch_size_witness :
  stream_otlp_spans Demo.json_loads Demo.fs Demo.glob "*_service.arrow" 0 =
  ([[Demo.JNull]; [Demo.JTrue]; [Demo.JNull]], Ok tt).
Proof.
  apply (@stream_nonpositive_batch_size Demo.Json Demo.json_loads Demo.fs
           Demo.glob "*_service.arrow" 0
           [[Demo.JNull; Demo.JTrue]; [Demo.JNull]]);
    [lia | reflexivity].
Defined.

(** ** Updating a dictionary entry *)

Section UpdateFacts.
Variables K V : Type.
Variable eqb : K -> K -> bool.
Hypothesis eqb_eq : forall a b, eqb a b = true <-> a = b.

Lemma dict_update_cons (F : option V -> V) (a : K) (b : V) (d : dict K V) (k : K) :
  dict_update eqb F ((a, b) :: d) k =
  if eqb k a then (a, F (Some b)) :: d else (a, b) :: dict_update eqb F d k.
Proof. unfold dict_update. simpl. now destruct (eqb k a). Qed.

Lemma dict_update_twice (F G : option V -> V) (d : dict K V) (k : K) :
  dict_update eqb G (dict_update eqb F d k) k =
  dict_update eqb (fun o => G (Some (F o))) d k.
Proof.
  induction d as [|[a b] d IH].
  - unfold dict_update. simpl.
    now destruct (eqb_reflect eqb eqb_eq k k).
  - rewrite !dict_update_cons.
    destruct (eqb_reflect eqb eqb_eq k a) as [E | E].
    + rewrite dict_update_cons.
      now destruct (eqb_reflect eqb eqb_eq k a).
    + rewrite dict_update_cons.
      destruct (eqb_reflect eqb eqb_eq k a); [contradiction|].
      now rewrite IH.
Qed.

(** Updates of two keys commute once the first key is in the
    dictionary. *)
Lemma dict_update_comm (F G : option V -> V) (d : dict K V) (k k' : K) :
  k <> k' -> In k (map fst d) ->
  dict_update eqb F (dict_update eqb G d k) k' =
  dict_update eqb G (dict_update eqb F d k') k.
Proof.
  intro Hne. induction d as [|[a b] d IH]; simpl; intro Hin; [tauto|].
  rewrite !dict_update_cons.
  destruct (eqb_reflect eqb eqb_eq k a) as [Ea | Ea];
    destruct (eqb_reflect eqb eqb_eq k' a) as [Ea' | Ea'];
    rewrite !dict_update_cons.
  - congruence.
  - destruct (eqb_reflect eqb eqb_eq k a); [|contradiction].
    now destruct (eqb_reflect eqb eqb_eq k' a).
  - destruct (eqb_reflect eqb eqb_eq k a); [contradiction|].
    now destruct (eqb_reflect eqb eqb_eq k' a).
  - destruct (eqb_reflect eqb eqb_eq k a); [contradiction|].
    destruct (eqb_reflect eqb eqb_eq k' a); [contradiction|].
    rewrite IH; [reflexivity|]. destruct Hin as [E | Hin]; [|assumption].
    simpl in E. congruence.
Qed.

Lemma dict_update_keeps_key (F : option V -> V) (d : dict K V) (k k' : K) :
  In k (map fst d) -> In k (map fst (dict_update eqb F d k')).
Proof.
  intro H. unfold dict_update. rewrite (dict_keys_set eqb).
  destruct (existsb (eqb k') (map fst d)); [assumption|].
  apply in_or_app. now left.
Qed.

Lemma dict_update_has_key (F : option V -> V) (d : dict K V) (k : K) :
  In k (map fst (dict_update eqb F d k)).
Proof.
  unfold dict_update. rewrite (dict_keys_set eqb).
  destruct (existsb (eqb k) (map fst d)) eqn:E.
  - now apply (existsb_In eqb eqb_eq).
  - apply in_or_app. right. now left.
Qed.

Lemma dict_update_ext (F G : option V -> V) (d : dict K V) (k : K) :
  (forall o, F o = G o) -> dict_update eqb F d k = dict_update eqb G d k.
Proof. intro H. unfold dict_update. now rewrite H. Qed.
End UpdateFacts.

(** ** Merging the files one by one is loading them end to end *)

Lemma combine_app_eq (A B : Type) (l1 l2 : list A) (m1 m2 : list B) :
  List.length l1 = List.length m1 ->
  combine (l1 ++ l2) (m1 ++ m2) = combine l1 m1 ++ combine l2 m2.
Proof.
  revert m1. induction l1 as [|a l1 IH]; intros [|b m1] H; simpl in *;
    try discriminate; [reflexivity|].
  f_equal. apply IH. lia.
Qed.

Section MergeExact.
Variable Payload : Type.
Variable json_loads : string -> option Payload.
Variable fs : string -> option Table.

Lemma append_loop_keys_NoDup (xs : list (Row * Payload)) :
  NoDup (map fst (fold_left (@append_step Payload) xs [])).
Proof.
  induction xs as [|x xs IH] using rev_ind; [constructor|].
  rewrite fold_left_app. simpl. unfold append_step at 1, group_step.
  apply dict_keys_set_NoDup; [exact String.eqb_eq | exact IH].
Qed.

Lemma extend_then_append (d : dict string (list Payload)) (k : string)
    (b : list Payload) (p : Payload) :
  dict_extend d (k, b ++ [p]) =
  dict_update String.eqb (fun o => default [] o ++ [p]) (dict_extend d (k, b)) k.
Proof.
  change (dict_extend d (k, b))
    with (dict_update String.eqb (fun o => default [] o ++ b) d k).
  rewrite (dict_update_twice String.eqb String.eqb_eq).
  change (dict_extend d (k, b ++ [p]))
    with (dict_update String.eqb (fun o => default [] o ++ (b ++ [p])) d k).
  apply dict_update_ext. intro o. simpl. apply app_assoc.
Qed.

Lemma extend_loop_commutes (g : dict string (list Payload)) (k : string)
    (p : Payload) :
  ~ In k (map fst g) ->
  forall d,
    In k (map fst d) ->
    fold_left (@dict_extend Payload) g
      (dict_update String.eqb (fun o => default [] o ++ [p]) d k) =
    dict_update String.eqb (fun o => default [] o ++ [p])
      (fold_left (@dict_extend Payload) g d) k.
Proof.
  induction g as [|[a b] g IH]; intros Hnin d Hd; [reflexivity|].
  simpl.
  assert (Hne : k <> a) by (intro; subst; apply Hnin; now left).
  change (dict_extend
            (dict_update String.eqb (fun o => default [] o ++ [p]) d k) (a, b))
    with (dict_update String.eqb (fun o => default [] o ++ b)
            (dict_update String.eqb (fun o => default [] o ++ [p]) d k) a).
  rewrite (dict_update_comm String.eqb String.eqb_eq _ _ d Hne Hd).
  change (dict_update String.eqb (fun o => default [] o ++ b) d a)
    with (dict_extend d (a, b)).
  apply IH.
  - intro H. apply Hnin. now right.
  - change (dict_extend d (a, b))
      with (dict_update String.eqb (fun o => default [] o ++ b) d a).
    now apply dict_update_keeps_key.
Qed.

Lemma extend_after_append (g : dict string (list Payload)) (k : string)
    (p : Payload) :
  NoDup (map fst g) ->
  forall d,
    fold_left (@dict_extend Payload)
      (dict_update String.eqb (fun o => default [] o ++ [p]) g k) d =
    dict_update String.eqb (fun o => default [] o ++ [p])
      (fold_left (@dict_extend Payload) g d) k.
Proof.
  induction g as [|[a b] g IH]; intros Hnd d.
  - reflexivity.
  - inversion Hnd as [|a' g' Hnin Hnd']. subst.
    rewrite dict_update_cons.
    destruct (eqb_reflect String.eqb String.eqb_eq k a) as [E | E].
    + subst a. simpl. rewrite extend_then_append.
      apply extend_loop_commutes; [assumption|].
      change (dict_extend d (k, b))
        with (dict_update String.eqb (fun o => default [] o ++ b) d k).
      apply dict_update_has_key. exact String.eqb_eq.
    + simpl. now apply IH.
Qed.

(** Extending a dictionary by the grouped rows is appending the rows one
    by one. *)
Lemma extend_by_grouped (xs : list (Row * Payload))
    (d : dict string (list Payload)) :
  fold_left (@dict_extend Payload) (fold_left (@append_step Payload) xs []) d =
  fold_left (@append_step Payload) xs d.
Proof.
  induction xs as [|x xs IH] using rev_ind; [reflexivity|].
  rewrite !fold_left_app. simpl. rewrite <- IH.
  apply (@extend_after_append
           (fold_left (@append_step Payload) xs []) (trace_id (fst x)) (snd x)
           (append_loop_keys_NoDup xs)).
Qed.

Lemma append_loop_tabulate (t : Table) (ps : list Payload) :
  List.length (rows t) = List.length ps ->
  fold_left (@append_step Payload) (combine (rows t) ps) [] =
  tabulate (trace_items t ps) (trace_ids t).
Proof.
  intro Hlen. unfold append_step.
  rewrite group_loop_grouped with (G := map snd).
  - unfold grouped, trace_ids.
    rewrite <- (map_map fst trace_id), map_fst_combine by assumption.
    reflexivity.
  - exact String.eqb_eq.
  - reflexivity.
  - intros xs x. now rewrite map_app.
Qed.

Lemma all_traces_loop_exact (files : list string) (tables : list Table) :
  Forall2 (fun f t => fs f = Some t) files tables ->
  forall pss,
    Forall2 (fun t ps => decode_rows json_loads (rows t) = Some ps) tables pss ->
    forall d,
      all_traces_loop json_loads fs files d =
      Ok (fold_left (@append_step Payload)
            (combine (all_rows tables) (List.concat pss)) d) /\
      List.length (all_rows tables) = List.length (List.concat pss).
Proof.
  induction 1 as [|f t files tables Hf _ IH]; intros pss Hdec d.
  - inversion Hdec. subst. split; reflexivity.
  - inversion Hdec as [|t' ps tables' pss' Hps Hrest]. subst. simpl.
    unfold load_otlp_traces_from_arrow, read_table. rewrite Hf. simpl.
    rewrite traces_loop_ok with (ps := ps) by assumption. simpl.
    destruct (IH pss' Hrest
                (fold_left (@dict_extend Payload)
                   (fold_left (@append_step Payload) (combine (rows t) ps) [])
                   d)) as [H1 H2].
    assert (Hlen : List.length (rows t) = List.length ps)
      by (eapply decode_rows_length; eassumption).
    split.
    + rewrite H1, extend_by_grouped. unfold all_rows. simpl.
      rewrite combine_app_eq by assumption.
      now rewrite fold_left_app.
    + unfold all_rows in *. simpl. rewrite !length_app. now rewrite H2, Hlen.
Qed.

Lemma merged_groups_tabulate (g : string -> list Payload) (tids : list string) :
  (forall tid, In tid tids -> g tid <> []) ->
  flat_map (fun kv => trace_resource_spans (snd kv)) (tabulate g tids) =
  map (fun tid => resource_span (Some "unknown") (g tid)) tids.
Proof.
  induction tids as [|tid tids IH]; intro Hne; simpl; [reflexivity|].
  rewrite trace_resource_spans_spec.
  pose proof (Hne tid (or_introl eq_refl)) as Hn.
  destruct (g tid) eqn:E; [contradiction|].
  simpl. f_equal. apply IH. intros k Hk. apply Hne. now right.
Qed.

(** X9: [arrow_to_otlp_json] on files that all load: the tree has one group
    per trace id, labelled "unknown", the trace ids in order of first
    encounter over the files taken in the order given; the group of a trace
    holds its spans file after file, and within a file in row order.  It is
    the tree of the one table made of the files put end to end. *)
Theorem merged_tree_per_trace (arrow_files : list string) (output_file : string)
    (tables : list Table) (pss : list (list Payload)) :
  Forall2 (fun f t => fs f = Some t) arrow_files tables ->
  Forall2 (fun t ps => decode_rows json_loads (rows t) = Some ps) tables pss ->
  arrow_to_otlp_json json_loads fs arrow_files output_file =
  ([WriteJson output_file
      (mkOtlpData
         (map (fun tid =>
                 resource_span (Some "unknown")
                   (map snd
                      (filter (fun it => String.eqb (trace_id (fst it)) tid)
                         (combine (all_rows tables) (List.concat pss)))))
            (unique String.eqb (map trace_id (all_rows tables)))))],
   Ok tt).
Proof.
  intros Hfiles Hdec.
  destruct (all_traces_loop_exact Hfiles Hdec []) as [H Hlen].
  unfold arrow_to_otlp_json. rewrite H.
  pose proof (@append_loop_tabulate (mkTable true (all_rows tables))
                (List.concat pss) Hlen) as Ht.
  cbn [rows] in Ht. rewrite Ht.
  rewrite merged_groups_tabulate; [reflexivity|].
  intros tid Hin. now apply trace_items_nonempty.
Qed.
End MergeExact.

Lemma merged_tree_per_trace_witness :
  arrow_to_otlp_json Demo.json_loads Demo.fs
    ["interleaved.arrow"; "two_services.arrow"] "o.json" =
  ([WriteJson "o.json"
      (mkOtlpData
         [resource_span (Some "unknown") [Demo.JNull; Demo.JFalse];
          resource_span (Some "unknown") [Demo.JTrue; Demo.JNull; Demo.JTrue];
          resource_span (Some "unknown") [Demo.JEmptyObject]])],
   Ok tt).
Proof.
  apply (@merged_tree_per_trace Demo.Json Demo.json_loads Demo.fs
           ["interleaved.arrow"; "two_services.arrow"] "o.json"
           [Demo.interleaved; Demo.two_services]
           [[Demo.JNull; Demo.JTrue; Demo.JFalse; Demo.JEmptyObject];
            [Demo.JNull; Demo.JTrue]]);
    repeat constructor.
Defined.

(** * The groups of the two converters *)

(** ** Rows tagged with their index *)

Lemma trace_items_map (A B : Type) (f : A -> B) (t : Table) (xs : list A)
    (tid : string) :
  trace_items t (map f xs) tid = map f (trace_items t xs tid).
Proof.
  unfold trace_items. revert xs.
  induction (rows t) as [|r rs IH]; intros [|x xs]; simpl; try reflexivity.
  destruct (String.eqb (trace_id r) tid); simpl; now rewrite IH.
Qed.

Lemma group_items_map (A B : Type) (f : A -> B) (t : Table) (xs : list A)
    (l : Label) :
  group_items t (map f xs) l = map f (group_items t xs l).
Proof.
  unfold group_items.
  induction (filter (fun tid => Label_eqb (service_of_trace t tid) l)
               (trace_ids t)) as [|tid tids IH]; simpl; [reflexivity|].
  now rewrite map_app, trace_items_map, IH.
Qed.

Lemma In_trace_items (A : Type) (t : Table) (xs : list A) (tid : string)
    (x : A) :
  In x (trace_items t xs tid) <->
  exists r, In (r, x) (combine (rows t) xs) /\ trace_id r = tid.
Proof.
  unfold trace_items. rewrite in_map_iff. split.
  - intros [[r y] [E H]]. simpl in E. subst y.
    apply filter_In in H. destruct H as [H1 H2].
    exists r. split; [exact H1 | now apply String.eqb_eq].
  - intros [r [H1 H2]]. exists (r, x). split; [reflexivity|].
    apply filter_In. split; [exact H1|]. simpl. now apply String.eqb_eq.
Qed.

Lemma In_group_items (A : Type) (t : Table) (xs : list A) (l : Label) (x : A) :
  In x (group_items t xs l) <->
  exists r,
    In (r, x) (combine (rows t) xs) /\ service_of_trace t (trace_id r) = l.
Proof.
  split.
  - unfold group_items. rewrite in_flat_map. intros [tid [Htid Hx]].
    apply filter_In in Htid. destruct Htid as [_ Hl].
    apply Label_eqb_eq in Hl.
    apply In_trace_items in Hx. destruct Hx as [r [Hr Hid]].
    exists r. split; [exact Hr | now rewrite Hid].
  - intros [r [Hr <-]]. now apply row_in_group.
Qed.

(** The row an index tags. *)
Lemma indexed_row_at (A : Type) (rs : list Row) (xs : list A) (s : nat)
    (r : Row) (i : nat) (x : A) :
  In (r, (i, x)) (combine rs (combine (seq s (List.length xs)) xs)) ->
  (s <= i)%nat /\ nth_error rs (i - s) = Some r.
Proof.
  revert xs s. induction rs as [|r0 rs IH]; intros [|x0 xs] s; simpl;
    try contradiction.
  intros [E | H].
  - injection E as <- <- _. rewrite Nat.sub_diag. split; [lia | reflexivity].
  - destruct (IH xs (S s) H) as [Hle Hn]. split; [lia|].
    replace (i - s)%nat with (S (i - S s)) by lia. exact Hn.
Qed.

Lemma row_at_indexed (A : Type) (rs : list Row) (xs : list A) (s i : nat)
    (r : Row) :
  List.length rs = List.length xs ->
  nth_error rs i = Some r ->
  exists x, In (r, ((s + i)%nat, x)) (combine rs (combine (seq s (List.length xs)) xs)).
Proof.
  revert xs s i. induction rs as [|r0 rs IH]; intros [|x0 xs] s i Hlen Hn;
    simpl in *; try discriminate.
  - destruct i; discriminate.
  - destruct i as [|i]; simpl in Hn.
    + injection Hn as <-. exists x0. left. now rewrite Nat.add_0_r.
    + destruct (IH xs (S s) i (eq_add_S _ _ Hlen) Hn) as [x Hx].
      exists x. right. now rewrite <- plus_n_Sm.
Qed.

Lemma length_indexed (A : Type) (rs : list Row) (xs : list A) :
  List.length rs = List.length xs ->
  List.length rs = List.length (combine (seq 0 (List.length xs)) xs).
Proof.
  intro H. rewrite length_combine, length_seq. lia.
Qed.

Lemma map_snd_indexed (A : Type) (xs : list A) :
  map snd (combine (seq 0 (List.length xs)) xs) = xs.
Proof. apply map_snd_combine. apply length_seq. Qed.

Lemma Forall2_map_l (A B C : Type) (P : B -> C -> Prop) (f : A -> B)
    (g : A -> C) (l : list A) :
  (forall a, In a l -> P (f a) (g a)) -> Forall2 P (map f l) (map g l).
Proof.
  induction l as [|a l IH]; intro H; simpl; constructor.
  - apply H. now left.
  - apply IH. intros b Hb. apply H. now right.
Qed.

Lemma flat_map_snd_tabulate (K V : Type) (g : K -> list V) (l : list K) :
  flat_map snd (tabulate g l) = flat_map g l.
Proof.
  induction l as [|a l IH]; simpl; [reflexivity | now rewrite IH].
Qed.

Section Partition.
Variable Payload : Type.
Variable json_loads : string -> option Payload.
Variable fs : string -> option Table.
Variable path_stem : string -> string.
Variable path_join : string -> string -> string.

(** The tables and the payloads behind files that all load. *)
Lemma load_files_tables (files : list string) (pss : list (list Payload)) :
  load_files json_loads fs files = Ok pss ->
  exists tables,
    Forall2 (fun f t => fs f = Some t) files tables /\
    Forall2 (fun t ps => decode_rows json_loads (rows t) = Some ps) tables pss.
Proof.
  revert pss. induction files as [|f files IH]; intros pss H.
  - injection H as <-. exists []. split; constructor.
  - apply load_files_cons in H.
    destruct H as [t [ps [pss' [Hfs [Hdec [Hrest ->]]]]]].
    destruct (IH pss' Hrest) as [tables [H1 H2]].
    exists (t :: tables). split; constructor; assumption.
Qed.

(** C2, as the code has it.  The single-file converter emits a partition
    by service: every label occurs once, every row, tagged with its index,
    is in the group labelled with the service of its trace and in no other
    group, and the span lists of the groups are pairwise disjoint and cover
    the decoded rows.  The merged converter [arrow_to_otlp_json] emits one
    group per trace, every one labelled "unknown": the groups match the
    distinct trace ids of the files one to one, the group of a trace holds
    the rows of that trace and no other, and the span lists are pairwise
    disjoint and cover the decoded rows of all the files. *)
Theorem resource_groups_partition :
  (forall arrow_file_path output_dir t ps,
      fs arrow_file_path = Some t ->
      decode_rows json_loads (rows t) = Some ps ->
      rows t <> [] ->
      exists out,
        convert_arrow_to_otlp json_loads fs path_stem path_join
          arrow_file_path output_dir =
          ([Mkdir output_dir;
            WriteJson (path_join output_dir
              (String.append (path_stem arrow_file_path) ".otlp.json")) out],
           true) /\
        NoDup (tree_labels out) /\
        Forall (fun rs => exists l, rs_labels rs = [l]) (resourceSpans out) /\
        exists parts : list (list (nat * Payload)),
          map (map snd) parts = map (@rs_spans Payload) (resourceSpans out) /\
          Permutation (List.concat parts)
            (combine (seq 0 (List.length ps)) ps) /\
          Forall2
            (fun rs part =>
               forall i r,
                 nth_error (rows t) i = Some r ->
                 ((exists p, In (i, p) part) <->
                  rs_labels rs = [service_of_trace t (trace_id r)]))
            (resourceSpans out) parts) /\
  (forall arrow_files output_file pss,
      load_files json_loads fs arrow_files = Ok pss ->
      exists out tables,
        Forall2 (fun f t => fs f = Some t) arrow_files tables /\
        arrow_to_otlp_json json_loads fs arrow_files output_file =
          ([WriteJson output_file out], Ok tt) /\
        Forall (fun rs => rs_labels rs = [Some "unknown"]) (resourceSpans out) /\
        exists parts : list (list (nat * Payload)),
          map (map snd) parts = map (@rs_spans Payload) (resourceSpans out) /\
          Permutation (List.concat parts)
            (combine (seq 0 (List.length (List.concat pss))) (List.concat pss)) /\
          Forall2
            (fun tid part =>
               forall i r,
                 nth_error (all_rows tables) i = Some r ->
                 ((exists p, In (i, p) part) <-> trace_id r = tid))
            (unique String.eqb (map trace_id (all_rows tables))) parts).
Proof.
  split.
  - intros arrow_file_path output_dir t ps Hfs Hdec Hne.
    assert (Hlen : List.length (rows t) = List.length ps)
      by (eapply decode_rows_length; eassumption).
    exists (expected_tree t ps). split; [now apply convert_ok|]. split.
    { rewrite tree_labels_expected. apply service_labels_NoDup. }
    split.
    { apply Forall_forall. intros rs Hrs.
      destruct (tree_groups t ps rs Hrs) as [l [_ ->]]. now exists l. }
    exists (map (group_items t (combine (seq 0 (List.length ps)) ps))
              (service_labels t)).
    split; [|split].
    + unfold expected_tree. simpl. rewrite !map_map. apply map_ext.
      intro l. rewrite rs_spans_resource_span, <- group_items_map.
      now rewrite map_snd_indexed.
    + rewrite <- flat_map_concat_map, <- tree_spans_expected.
      apply tree_spans_perm. now apply length_indexed.
    + unfold expected_tree. simpl. apply Forall2_map_l.
      intros l _ i r Hi. rewrite rs_labels_resource_span. split.
      * intros [p Hp]. apply In_group_items in Hp.
        destruct Hp as [r' [Hr' <-]].
        apply indexed_row_at in Hr'. destruct Hr' as [_ Hr'].
        rewrite Nat.sub_0_r, Hi in Hr'. now injection Hr' as ->.
      * intro E. injection E as ->.
        destruct (@row_at_indexed _ (rows t) ps 0 i r Hlen Hi) as [p Hp].
        exists p. apply In_group_items. now exists r.
  - intros arrow_files output_file pss Hload.
    destruct (load_files_tables _ Hload) as [tables [Hfiles Hdec]].
    destruct (@all_traces_loop_exact _ json_loads fs _ _ Hfiles _ Hdec [])
      as [H Hlen].
    pose proof (@append_loop_tabulate _ (mkTable true (all_rows tables))
                  (List.concat pss) Hlen) as Ht.
    cbn [rows] in Ht.
    eexists. exists tables. split; [exact Hfiles|]. split.
    { unfold arrow_to_otlp_json. rewrite H, Ht.
      rewrite merged_groups_tabulate; [reflexivity|].
      intros tid Hin. now apply trace_items_nonempty. }
    cbn [resourceSpans]. split.
    { apply Forall_forall. intros rs Hrs. apply in_map_iff in Hrs.
      now destruct Hrs as [tid [<- _]]. }
    exists (map (trace_items (mkTable true (all_rows tables))
                   (combine (seq 0 (List.length (List.concat pss)))
                      (List.concat pss)))
              (trace_ids (mkTable true (all_rows tables)))).
    split; [|split].
    + rewrite !map_map. apply map_ext. intro tid.
      rewrite rs_spans_resource_span, <- trace_items_map.
      now rewrite map_snd_indexed.
    + rewrite <- flat_map_concat_map, <- flat_map_snd_tabulate.
      apply traces_perm. cbn [rows]. now apply length_indexed.
    + rewrite <- (map_id (unique String.eqb (map trace_id (all_rows tables)))).
      apply (@Forall2_map_l _ _ _ _ (fun tid : string => tid)
               (trace_items (mkTable true (all_rows tables))
                  (combine (seq 0 (List.length (List.concat pss)))
                     (List.concat pss)))
               (unique String.eqb (map trace_id (all_rows tables)))). intros tid _ i r Hi. split.
      * intros [p Hp]. apply In_trace_items in Hp.
        destruct Hp as [r' [Hr' <-]]. cbn [rows] in Hr'.
        apply indexed_row_at in Hr'. destruct Hr' as [_ Hr'].
        rewrite Nat.sub_0_r, Hi in Hr'. now injection Hr' as ->.
      * intros <-.
        destruct (@row_at_indexed _ (all_rows tables) (List.concat pss) 0 i r
                    Hlen Hi) as [p Hp].
        exists p. apply In_trace_items. now exists r.
Qed.
End Partition.

Lemma resource_groups_partition_witness :
  (exists out,
      convert_arrow_to_otlp Demo.json_loads Demo.fs Demo.path_stem
        Demo.path_join "interleaved.arrow" "out" =
        ([Mkdir "out"; WriteJson "out/interleaved.otlp.json" out], true) /\
      NoDup (tree_labels out) /\
      Forall (fun rs => exists l, rs_labels rs = [l]) (resourceSpans out) /\
      exists parts : list (list (nat * Demo.Json)),
        map (map snd) parts = map (@rs_spans Demo.Json) (resourceSpans out) /\
        Permutation (List.concat parts)
          (combine (seq 0 4)
             [Demo.JNull; Demo.JTrue; Demo.JFalse; Demo.JEmptyObject]) /\
        Forall2
          (fun rs part =>
             forall i r,
               nth_error (rows Demo.interleaved) i = Some r ->
               ((exists p, In (i, p) part) <->
                rs_labels rs = [service_of_trace Demo.interleaved (trace_id r)]))
          (resourceSpans out) parts) /\
  (exists out tables,
      Forall2 (fun f t => Demo.fs f = Some t)
        ["interleaved.arrow"; "two_services.arrow"] tables /\
      arrow_to_otlp_json Demo.json_loads Demo.fs
        ["interleaved.arrow"; "two_services.arrow"] "o.json" =
        ([WriteJson "o.json" out], Ok tt) /\
      Forall (fun rs => rs_labels rs = [Some "unknown"]) (resourceSpans out) /\
      exists parts : list (list (nat * Demo.Json)),
        map (map snd) parts = map (@rs_spans Demo.Json) (resourceSpans out) /\
        Permutation (List.concat parts)
          (combine (seq 0 6)
             [Demo.JNull; Demo.JTrue; Demo.JFalse; Demo.JEmptyObject;
              Demo.JNull; Demo.JTrue]) /\
        Forall2
          (fun tid part =>
             forall i r,
               nth_error (all_rows tables) i = Some r ->
               ((exists p, In (i, p) part) <-> trace_id r = tid))
          (unique String.eqb (map trace_id (all_rows tables))) parts).
Proof.
  destruct (@resource_groups_partition Demo.Json Demo.json_loads Demo.fs
              Demo.path_stem Demo.path_join) as [H1 H2].
  split.
  - apply (H1 "interleaved.arrow" "out" Demo.interleaved
             [Demo.JNull; Demo.JTrue; Demo.JFalse; Demo.JEmptyObject]);
      [reflexivity | reflexivity | discriminate].
  - apply (H2 ["interleaved.arrow"; "two_services.arrow"] "o.json"
             [[Demo.JNull; Demo.JTrue; Demo.JFalse; Demo.JEmptyObject];
              [Demo.JNull; Demo.JTrue]]).
    reflexivity.
Defined.

Section MergeErrors.
Variable Payload : Type.
Variable json_loads : string -> option Payload.
Variable fs : string -> option Table.

Lemma all_traces_loop_app (l1 l2 : list string)
    (d : dict string (list Payload)) :
  all_traces_loop json_loads fs (l1 ++ l2) d =
  (d' <- all_traces_loop json_loads fs l1 d ;;
   all_traces_loop json_loads fs l2 d').
Proof.
  revert d. induction l1 as [|f l1 IH]; intro d; simpl; [reflexivity|].
  destruct (load_otlp_traces_from_arrow json_loads fs f); simpl;
    [apply IH | reflexivity].
Qed.

(** X10: [arrow_to_otlp_json] writes its file only once every input file has
    been loaded: when the files before [f] load and [f] is missing or holds
    a malformed payload, it raises that error and writes nothing, whatever
    comes after [f]. *)
Theorem merged_all_or_nothing (before after : list string) (f output_file : string)
    (tables : list Table) (pss : list (list Payload)) :
  Forall2 (fun g t => fs g = Some t) before tables ->
  Forall2 (fun t ps => decode_rows json_loads (rows t) = Some ps) tables pss ->
  (fs f = None ->
   arrow_to_otlp_json json_loads fs (before ++ f :: after) output_file =
   ([], Raise FileNotFoundError)) /\
  (forall t,
      fs f = Some t ->
      (exists r, In r (rows t) /\ json_loads (otlp_span r) = None) ->
      arrow_to_otlp_json json_loads fs (before ++ f :: after) output_file =
      ([], Raise JSONDecodeError)).
Proof.
  intros Hfiles Hdec.
  destruct (all_traces_loop_exact json_loads fs Hfiles Hdec []) as [H _].
  unfold arrow_to_otlp_json. rewrite all_traces_loop_app, H. simpl. split.
  - intro Hf. unfold load_otlp_traces_from_arrow, read_table.
    now rewrite Hf.
  - intros t Hf Hbad. apply decode_rows_none in Hbad.
    now rewrite (load_traces_raise json_loads fs f Hf Hbad).
Qed.
End MergeErrors.

Lemma merged_all_or_nothing_witness :
  arrow_to_otlp_json Demo.json_loads Demo.fs
    ["interleaved.arrow"; "malformed.arrow"; "two_services.arrow"] "o.json" =
  ([], Raise JSONDecodeError).
Proof.
  refine (proj2 (@merged_all_or_nothing Demo.Json Demo.json_loads Demo.fs
                   ["interleaved.arrow"] ["two_services.arrow"]
                   "malformed.arrow" "o.json" [Demo.interleaved]
                   [[Demo.JNull; Demo.JTrue; Demo.JFalse; Demo.JEmptyObject]]
                   _ _) Demo.malformed eq_refl _).
  - repeat constructor.
  - repeat constructor.
  - exists (Demo.row "t1" "s1" "s0" (Some "svcA") "db.query" 10 "{").
    split; [right; left; reflexivity | reflexivity].
Defined.

(** ** More on the statistics *)

Lemma length_flat_map_Nsum (A B : Type) (f : A -> list B) (l : list A) :
  List.length (flat_map f l) = Nsum (map (fun a => List.length (f a)) l).
Proof.
  induction l as [|a l IH]; simpl; [reflexivity|].
  now rewrite length_app, IH.
Qed.

(** Counting the rows key by key counts every row once. *)
Lemma group_sizes_sum (A K : Type) (eqb : K -> K -> bool)
    (eqb_eq : forall a b, eqb a b = true <-> a = b)
    (key_of : A -> K) (l : list A) (keys : list K) :
  Permutation keys (unique eqb (map key_of l)) ->
  Nsum (map (fun k => List.length (filter (fun a => eqb (key_of a) k) l)) keys) =
  List.length l.
Proof.
  intro Hp.
  rewrite <- (length_flat_map_Nsum (fun k => filter (fun a => eqb (key_of a) k) l)).
  apply Permutation_length.
  rewrite (Permutation_flat_map _ Hp).
  apply (group_by_perm eqb eqb_eq key_of).
Qed.

Lemma dropna_length (A : Type) (l : list (option A)) :
  (List.length (dropna l) <= List.length l)%nat.
Proof.
  induction l as [|[a|] l IH]; simpl; lia.
Qed.

Section MoreStatistics.
Context {summation : Summation}.
Variable fs : string -> option Table.

(** X11: in what [get_trace_statistics] returns, the counts of [span_kinds] add
    up to [total_spans], every kind is listed once with a count of at
    least one, neither [unique_traces] nor [unique_services] exceeds
    [total_spans], and the mean is NaN exactly when there is no row. *)
Theorem statistics_counts (arrow_file : string) (st : Stats) :
  get_trace_statistics fs arrow_file = Ok st ->
  Nsum (map snd (span_kinds st)) = total_spans st /\
  NoDup (map fst (span_kinds st)) /\
  Forall (fun kv => (1 <= snd kv)%nat) (span_kinds st) /\
  (unique_traces st <= total_spans st)%nat /\
  (unique_services st <= total_spans st)%nat /\
  (avg_duration_ms st = NaN <-> total_spans st = 0%nat).
Proof.
  unfold get_trace_statistics, read_table, column_service_name.
  destruct (fs arrow_file) as [t|]; simpl; [|discriminate].
  destruct (has_service_name t); simpl; [|discriminate].
  intro H. injection H as <-. simpl.
  set (kinds := map kind (rows t)).
  assert (Hk : map fst (value_counts kinds) = unique String.eqb kinds).
  { unfold value_counts. rewrite map_map. apply map_id. }
  split; [|split; [|split; [|split; [|split]]]].
  - unfold value_counts. rewrite map_map. simpl.
    transitivity (List.length kinds); [|apply length_map].
    rewrite <- (group_sizes_sum String.eqb String.eqb_eq (fun x => x) kinds
                  (keys := unique String.eqb kinds))
      by (rewrite map_id; reflexivity).
    f_equal. apply map_ext. intro k. f_equal. apply filter_ext.
    intro x. apply String.eqb_sym.
  - rewrite Hk. apply NoDup_unique. exact String.eqb_eq.
  - apply Forall_forall. intros [k n] Hin. simpl.
    unfold value_counts in Hin. apply in_map_iff in Hin.
    destruct Hin as [k' [E Hin]]. injection E as -> <-.
    rewrite (In_unique String.eqb String.eqb_eq) in Hin.
    assert (Hf : In k (filter (String.eqb k) kinds)).
    { apply filter_In. split; [assumption | apply String.eqb_refl]. }
    destruct (filter (String.eqb k) kinds); [contradiction | simpl; lia].
  - unfold nunique. rewrite <- (map_map trace_id Some), dropna_Some.
    rewrite <- (length_map trace_id (rows t)). apply length_unique_le.
  - unfold nunique.
    pose proof (length_unique_le String.eqb (dropna (map service_name (rows t)))).
    pose proof (dropna_length (map service_name (rows t))).
    rewrite length_map in *. lia.
  - destruct (rows t); simpl; split; intro H; try discriminate; reflexivity.
Qed.
End MoreStatistics.

Lemma statistics_counts_witness :
  exists st,
    get_trace_statistics (summation := Demo.sequential_sum)
      Demo.fs "interleaved.arrow" = Ok st /\
    Nsum (map snd (span_kinds st)) = total_spans st.
Proof.
  eexists. split; [reflexivity|].
  apply (@statistics_counts Demo.sequential_sum Demo.fs "interleaved.arrow" _
           eq_refl).
Defined.

(** ** Span names *)

Section SpanNames.
Variable fs : string -> option Table.

(** X12: [extract_span_names] on a file that exists returns distinct span names
    of the table, in order of first appearance: the first [limit] of them
    for a limit that is not negative (all of them when there are no more
    than [limit]), and all but the last [-limit] for a negative limit. *)
Theorem extract_span_names_prefix (arrow_file : string) (limit : Z) (t : Table) :
  fs arrow_file = Some t ->
  exists names,
    extract_span_names fs arrow_file limit = Ok names /\
    (exists rest, unique String.eqb (map name (rows t)) = names ++ rest) /\
    NoDup names /\
    (forall n, In n names -> exists r, In r (rows t) /\ name r = n) /\
    ((0 <= limit)%Z ->
     Z.of_nat (List.length names) =
     Z.min limit (Z.of_nat (List.length (unique String.eqb (map name (rows t)))))) /\
    ((limit < 0)%Z ->
     Z.of_nat (List.length names) =
     Z.max 0 (Z.of_nat (List.length (unique String.eqb (map name (rows t)))) + limit)) /\
    ((Z.of_nat (List.length (unique String.eqb (map name (rows t)))) <= limit)%Z ->
     names = unique String.eqb (map name (rows t))).
Proof.
  intro Hfs. unfold extract_span_names, read_table. rewrite Hfs. simpl.
  set (u := unique String.eqb (map name (rows t))).
  assert (Hu : NoDup u) by (apply NoDup_unique; exact String.eqb_eq).
  assert (Hpre : forall n, exists rest, u = firstn n u ++ rest).
  { intro n. exists (skipn n u). symmetry. apply firstn_skipn. }
  assert (Hs : exists n, slice_upto u limit = firstn n u).
  { unfold slice_upto. destruct (0 <=? limit)%Z; eexists; reflexivity. }
  destruct Hs as [n Hn].
  eexists. split; [reflexivity|]. split; [|split; [|split; [|split; [|split]]]].
  - rewrite Hn. apply Hpre.
  - rewrite Hn. destruct (Hpre n) as [rest Hr]. rewrite Hr in Hu.
    now apply NoDup_app_remove_r in Hu.
  - intros x Hx. rewrite Hn in Hx.
    assert (Hin : In x u).
    { destruct (Hpre n) as [rest Hr]. rewrite Hr. apply in_or_app. now left. }
    unfold u in Hin. rewrite (In_unique String.eqb String.eqb_eq) in Hin.
    apply in_map_iff in Hin. destruct Hin as [r [Hr Hin]]. now exists r.
  - intro Hl. unfold slice_upto.
    assert (E : (0 <=? limit)%Z = true) by now apply Z.leb_le.
    rewrite E, length_firstn. lia.
  - intro Hl. unfold slice_upto.
    assert (E : (0 <=? limit)%Z = false) by now apply Z.leb_gt.
    rewrite E, length_firstn. lia.
  - intro Hl. unfold slice_upto.
    assert (E : (0 <=? limit)%Z = true) by (apply Z.leb_le; lia).
    rewrite E. apply firstn_all2. lia.
Qed.
End SpanNames.

Example extract_span_names_limits :
  extract_span_names Demo.fs "interleaved.arrow" 2 = Ok ["root2"; "root1"] /\
  extract_span_names Demo.fs "interleaved.arrow" (-1) =
    Ok ["root2"; "root1"; "child2"] /\
  extract_span_names Demo.fs "interleaved.arrow" (-9) = Ok [].
Proof. repeat split; reflexivity. Qed.

Lemma extract_span_names_prefix_witness :
  exists names,
    extract_span_names Demo.fs "interleaved.arrow" 2 = Ok names /\
    NoDup names /\
    Z.of_nat (List.length names) = 2%Z.
Proof.
  destruct (@extract_span_names_prefix Demo.fs "interleaved.arrow" 2
              Demo.interleaved eq_refl) as [names [H1 [_ [H2 [_ [H3 _]]]]]].
  exists names. split; [exact H1|]. split; [exact H2|].
  rewrite H3 by lia. reflexivity.
Defined.

(** ** More on the training examples *)

Section MoreExamples.
Variable Payload : Type.
Variable fs : string -> option Table.

Lemma examples_loop_lines (t : Table) (groups : list (string * list Row))
    (lines : list TrainingExample) :
  has_service_name t = true ->
  examples_loop t groups lines =
  (lines ++
   map (fun kv =>
          mkExample (fst kv)
            (unique Label_eqb (map service_name (snd kv)))
            (List.length (snd kv))
            (map name (snd kv))
            (Fin (float64_div
                    (float64_of_int (int64_sum (map duration_ns (snd kv))))
                    (float64_of_int 1000000)))
            (option_map name (find is_root (snd kv))))
     groups,
   Ok tt).
Proof.
  intro Hcol. revert lines.
  induction groups as [|[tid group] groups IH]; intro lines; simpl.
  - now rewrite app_nil_r.
  - rewrite training_example_ok by assumption.
    rewrite IH, <- app_assoc. reflexivity.
Qed.

(** X13: the lines of [create_training_examples] come in ascending order of
    trace id, whatever the order of the rows in the table. *)
Theorem training_examples_ascending (arrow_file output_jsonl : string)
    (t : Table) :
  fs arrow_file = Some t ->
  has_service_name t = true ->
  exists lines,
    create_training_examples Payload fs arrow_file output_jsonl =
      ([WriteJsonl output_jsonl lines], Ok tt) /\
    StronglySorted path_le (map ex_trace_id lines) /\
    Permutation (map ex_trace_id lines)
      (unique String.eqb (map trace_id (rows t))).
Proof.
  intros Hfs Hcol. unfold create_training_examples, read_table. rewrite Hfs.
  rewrite examples_loop_lines by assumption. simpl.
  eexists. split; [reflexivity|].
  unfold groupby_trace_id. rewrite !map_map. simpl. rewrite map_id.
  split; [apply sorted_sorted | apply sorted_perm].
Qed.

(** X14: every row of the table is counted in the line of its trace and in no
    other: the [span_count]s add up to the number of rows.  In each line,
    [span_names] lists the names of the rows of the trace in row order, and
    [service_names] the distinct service names of those rows, in order of
    first appearance. *)
Theorem training_examples_cover_rows (arrow_file output_jsonl : string)
    (t : Table) :
  fs arrow_file = Some t ->
  has_service_name t = true ->
  exists lines,
    create_training_examples Payload fs arrow_file output_jsonl =
      ([WriteJsonl output_jsonl lines], Ok tt) /\
    Nsum (map ex_span_count lines) = List.length (rows t) /\
    forall ex,
      In ex lines ->
      ex_span_names ex =
        map name
          (filter (fun r => String.eqb (trace_id r) (ex_trace_id ex)) (rows t)) /\
      ex_service_names ex =
        unique Label_eqb
          (map service_name
             (filter (fun r => String.eqb (trace_id r) (ex_trace_id ex)) (rows t))) /\
      NoDup (ex_service_names ex) /\
      List.length (ex_span_names ex) = ex_span_count ex /\
      (1 <= ex_span_count ex)%nat.
Proof.
  intros Hfs Hcol. unfold create_training_examples, read_table. rewrite Hfs.
  rewrite examples_loop_lines by assumption. simpl.
  eexists. split; [reflexivity|].
  unfold groupby_trace_id. rewrite !map_map. simpl. split.
  - apply (group_sizes_sum String.eqb String.eqb_eq trace_id (rows t)).
    apply sorted_perm.
  - intros ex Hex. apply in_map_iff in Hex. destruct Hex as [tid [<- Hin]].
    simpl. repeat split.
    + apply NoDup_unique. exact Label_eqb_eq.
    + apply length_map.
    + apply (Permutation_in _ (sorted_perm _)) in Hin.
      rewrite (In_unique String.eqb String.eqb_eq) in Hin.
      apply in_map_iff in Hin. destruct Hin as [r [Hr Hin]].
      assert (Hf : In r (filter (fun r0 => String.eqb (trace_id r0) tid) (rows t))).
      { apply filter_In. split; [assumption|]. rewrite Hr.
        apply String.eqb_refl. }
      destruct (filter (fun r0 => String.eqb (trace_id r0) tid) (rows t));
        [contradiction | simpl; lia].
Qed.

(** X15: on a file without a [service_name] column [create_training_examples]
    leaves an empty output file: it raises [KeyError] at the first trace,
    after opening the file for writing; when the table has no rows it even
    ends normally. *)
Theorem training_examples_without_service_column
    (arrow_file output_jsonl : string) (t : Table) :
  fs arrow_file = Some t ->
  has_service_name t = false ->
  create_training_examples Payload fs arrow_file output_jsonl =
  ([WriteJsonl output_jsonl []],
   match rows t with
   | [] => Ok tt
   | _ :: _ => Raise KeyError
   end).
Proof.
  intros Hfs Hcol. unfold create_training_examples, read_table. rewrite Hfs.
  unfold groupby_trace_id.
  destruct (rows t) as [|r rs] eqn:Hr; [reflexivity|].
  assert (Hne : sorted (unique String.eqb (map trace_id (r :: rs))) <> []).
  { intro H.
    pose proof (sorted_perm (unique String.eqb (map trace_id (r :: rs)))) as Hp.
    rewrite H in Hp. apply Permutation_nil in Hp. discriminate Hp. }
  destruct (sorted (unique String.eqb (map trace_id (r :: rs)))) as [|tid tids];
    [contradiction|].
  simpl. unfold training_example, column_service_name. simpl.
  now rewrite Hcol.
Qed.
End MoreExamples.

Lemma training_examples_ascending_witness :
  exists lines,
    create_training_examples Demo.Json Demo.fs "interleaved.arrow" "o.jsonl" =
      ([WriteJsonl "o.jsonl" lines], Ok tt) /\
    map ex_trace_id lines = ["t1"; "t2"; "t3"].
Proof.
  destruct (@training_examples_ascending Demo.Json Demo.fs "interleaved.arrow"
              "o.jsonl" Demo.interleaved eq_refl eq_refl) as [lines [H _]].
  exists lines. split; [exact H|].
  injection H as <-. reflexivity.
Defined.

Lemma training_examples_cover_rows_witness :
  exists lines,
    create_training_examples Demo.Json Demo.fs "interleaved.arrow" "o.jsonl" =
      ([WriteJsonl "o.jsonl" lines], Ok tt) /\
    Nsum (map ex_span_count lines) = 4%nat.
Proof.
  destruct (@training_examples_cover_rows Demo.Json Demo.fs "interleaved.arrow"
              "o.jsonl" Demo.interleaved eq_refl eq_refl) as [lines [H1 [H2 _]]].
  exists lines. split; assumption.
Defined.

Lemma training_examples_without_service_column_witness :
  create_training_examples Demo.Json Demo.fs "no_service_column.arrow" "o.jsonl" =
  ([WriteJsonl "o.jsonl" []], Raise KeyError).
Proof.
  apply (@training_examples_without_service_column Demo.Json Demo.fs
           "no_service_column.arrow" "o.jsonl" Demo.no_service_column);
    reflexivity.
Defined.

(** ** More on the converter and its command *)

Section MoreConvert.
Variable Payload : Type.
Variable json_loads : string -> option Payload.
Variable fs : string -> option Table.
Variable path_stem : string -> string.
Variable path_join : string -> string -> string.



(** X17: the tree [convert_arrow_to_otlp] writes has at least one group, no
    group without a span, and no more groups than the table has trace
    ids. *)
Theorem convert_groups_nonempty (arrow_file_path output_dir output_file : string)
    (out : OtlpData Payload) :
  In (WriteJson output_file out)
    (fst (convert_arrow_to_otlp json_loads fs path_stem path_join
            arrow_file_path output_dir)) ->
  exists t,
    fs arrow_file_path = Some t /\
    resourceSpans out <> [] /\
    Forall (fun rs => rs_spans rs <> []) (resourceSpans out) /\
    (List.length (resourceSpans out) <=
     List.length (unique String.eqb (map trace_id (rows t))))%nat.
Proof.
  rewrite convert_spec.
  destruct (fs arrow_file_path) as [t|] eqn:Hfs; [|intros []].
  destruct (decode_rows json_loads (rows t)) as [ps|] eqn:D.
  - destruct (rows t) as [|r rs] eqn:Hr.
    + simpl. intros [H | []]. discriminate H.
    + simpl. intros [H | [H | []]]; [discriminate H|].
      injection H as _ <-. exists t. split; [reflexivity|].
      assert (Hlen : List.length (rows t) = List.length ps)
        by (rewrite Hr; eapply decode_rows_length; eassumption).
      assert (Hl : service_labels t <> []).
      { unfold service_labels, trace_ids. rewrite Hr. simpl. discriminate. }
      split; [|split].
      * unfold expected_tree. simpl. intro H. apply map_eq_nil in H.
        contradiction.
      * apply Forall_forall. intros g Hg.
        destruct (tree_groups t ps g Hg) as [l [Hin ->]].
        rewrite rs_spans_resource_span.
        unfold service_labels in Hin.
        rewrite (In_unique Label_eqb Label_eqb_eq) in Hin.
        apply in_map_iff in Hin. destruct Hin as [tid [Hsvc Htid]].
        pose proof (trace_items_nonempty t ps tid Hlen Htid) as Hne.
        unfold group_items. intro H.
        assert (Hsub : incl (trace_items t ps tid)
                         (flat_map (trace_items t ps)
                            (filter (fun tid0 => Label_eqb (service_of_trace t tid0) l)
                               (trace_ids t)))).
        { intros p Hp. apply in_flat_map. exists tid. split; [|assumption].
          apply filter_In. split; [assumption|]. now apply Label_eqb_eq. }
        rewrite H in Hsub. destruct (trace_items t ps tid) as [|p sp];
          [now apply Hne | apply (Hsub p); now left].
      * unfold expected_tree. simpl. rewrite length_map.
        unfold service_labels.
        pose proof (length_unique_le Label_eqb
                      (map (service_of_trace t) (trace_ids t))) as H.
        rewrite length_map in H. exact H.
  - destruct (rows t); simpl; intros [H | []]; discriminate H.
Qed.

Variable is_abs : string -> bool.
Variable repo_root : string.

(** X18: the converter command exits with status 0 exactly when it wrote an
    output file, and with status 1 otherwise; it never writes more than
    one file, and with no argument it does nothing at all. *)
Theorem main_exit_status (argv : list string) :
  let r := main json_loads fs path_stem path_join is_abs repo_root argv in
  (snd r = 0%Z \/ snd r = 1%Z) /\
  (snd r = 0%Z <-> exists file out, In (WriteJson file out) (fst r)) /\
  (List.length (filter (@writes_file Payload) (fst r)) <= 1)%nat /\
  ((List.length argv < 2)%nat -> r = ([], 1%Z)).
Proof.
  cbv zeta. unfold main.
  destruct argv as [|script [|arrow_file rest]].
  - simpl. repeat split; auto; try discriminate; try lia.
    intros [file [out []]].
  - simpl. repeat split; auto; try discriminate; try lia.
    intros [file [out []]].
  - set (target := if is_abs arrow_file then arrow_file
                   else path_join repo_root arrow_file).
    set (dir := match rest with d :: _ => d | [] => "otlp_outputs" end).
    rewrite convert_spec.
    destruct (fs target) as [t|].
    + destruct (decode_rows json_loads (rows t)) as [ps|].
      * destruct (rows t); simpl; repeat split; auto; try discriminate;
          try lia.
        -- intros [file [out [H | []]]]. discriminate H.
        -- intros _. do 2 eexists. right. left. reflexivity.
      * destruct (rows t); simpl; repeat split; auto; try discriminate;
          try lia;
          intros [file [out [H | []]]]; discriminate H.
    + simpl. repeat split; auto; try discriminate; try lia.
      intros [file [out []]].
Qed.
End MoreConvert.

Lemma convert_groups_nonempty_witness :
  exists t,
    Demo.fs "interleaved.arrow" = Some t /\
    (2 <= List.length (unique String.eqb (map trace_id (rows t))))%nat.
Proof.
  destruct (@convert_groups_nonempty Demo.Json Demo.json_loads Demo.fs
              Demo.path_stem Demo.path_join "interleaved.arrow" "out"
              "out/interleaved.otlp.json"
              (mkOtlpData
                 [resource_span (Some "svcB")
                    [Demo.JNull; Demo.JFalse; Demo.JEmptyObject];
                  resource_span (Some "svcA") [Demo.JTrue]])
              (or_intror (or_introl eq_refl)))
    as [t [H1 [_ [_ H2]]]].
  exists t. split; assumption.
Defined.

(** The command on a relative path: the input is looked up under the
    repository root, the output goes to the default directory. *)
Example main_relative_path :
  main Demo.json_loads
    (fun p => Demo.fs
                (if String.eqb p "/repo/interleaved.arrow"
                 then "interleaved.arrow" else "gone"))
    (fun _ => "interleaved") Demo.path_join
    (fun p => String.prefix "/" p) "/repo"
    ["convert_arrow_to_otlp.py"; "interleaved.arrow"] =
  ([Mkdir "otlp_outputs";
    WriteJson "otlp_outputs/interleaved.otlp.json"
      (mkOtlpData
         [resource_span (Some "svcB")
            [Demo.JNull; Demo.JFalse; Demo.JEmptyObject];
          resource_span (Some "svcA") [Demo.JTrue]])],
   0%Z).
Proof. reflexivity. Qed.

(** ** Slicing a table into batches of rows *)

Lemma firstn_plus (A : Type) (a b : nat) (l : list A) :
  firstn a l ++ firstn b (skipn a l) = firstn (a + b) l.
Proof.
  revert l. induction a as [|a IH]; intro l; simpl; [reflexivity|].
  destruct l as [|x l]; simpl.
  - now rewrite firstn_nil.
  - now rewrite IH.
Qed.

Lemma firstn_min_length (A : Type) (b : nat) (l : list A) :
  firstn (Nat.min b (List.length l)) l = firstn b l.
Proof.
  destruct (Nat.le_ge_cases b (List.length l)) as [H | H].
  - now rewrite Nat.min_l.
  - rewrite Nat.min_r by assumption.
    now rewrite firstn_all, firstn_all2.
Qed.

(** The pieces [l[k*b : k*b + min(b, n - k*b)]] for [k < j] make up the
    first [j*b] elements. *)
Lemma pieces_concat (A : Type) (b : nat) (l : list A) (j : nat) :
  List.concat
    (map (fun k => firstn (Nat.min b (List.length l - k * b)) (skipn (k * b) l))
       (seq 0 j)) =
  firstn (j * b) l.
Proof.
  induction j as [|j IH]; [reflexivity|].
  rewrite seq_S, map_app, concat_app, IH. simpl. rewrite app_nil_r.
  rewrite <- (length_skipn (j * b) l), firstn_min_length, firstn_plus.
  f_equal. lia.
Qed.

Lemma seq_middle (A : Type) (f : nat -> A) (m : nat) (pre post : list A) (x : A) :
  map f (seq 0 m) = pre ++ x :: post ->
  x = f (List.length pre) /\ (List.length pre + 1 + List.length post = m)%nat.
Proof.
  intro H.
  assert (Hlen : (List.length pre + 1 + List.length post = m)%nat).
  { apply (f_equal (@List.length A)) in H.
    rewrite length_map, length_seq, length_app in H. simpl in H. lia. }
  split; [|exact Hlen].
  apply (f_equal (fun l => nth_error l (List.length pre))) in H.
  rewrite nth_error_map, nth_error_app2, Nat.sub_diag in H by lia.
  simpl in H.
  assert (Hs : nth_error (seq 0 m) (List.length pre) = Some (List.length pre)).
  { rewrite nth_error_nth' with (d := 0%nat) by (rewrite length_seq; lia).
    rewrite seq_nth by lia. reflexivity. }
  rewrite Hs in H. simpl in H. now injection H as <-.
Qed.

Lemma range_count (n b : nat) :
  (1 <= b)%nat ->
  let m := Z.to_nat ((Z.of_nat n + Z.of_nat b - 1) / Z.of_nat b) in
  (n <= m * b)%nat /\ (forall k, (k < m)%nat -> (k * b < n)%nat).
Proof.
  intro Hb. cbv zeta.
  set (q := ((Z.of_nat n + Z.of_nat b - 1) / Z.of_nat b)%Z).
  assert (Hpos : (0 < Z.of_nat b)%Z) by lia.
  assert (Hq0 : (0 <= q)%Z) by (apply Z.div_pos; lia).
  pose proof (Z.mul_div_le (Z.of_nat n + Z.of_nat b - 1) (Z.of_nat b) Hpos) as H1.
  pose proof (Z.mul_succ_div_gt (Z.of_nat n + Z.of_nat b - 1) (Z.of_nat b) Hpos)
    as H2.
  fold q in H1, H2.
  split.
  - apply Nat2Z.inj_le. rewrite Nat2Z.inj_mul, Z2Nat.id by assumption. nia.
  - intros k Hk. apply Nat2Z.inj_lt. rewrite Nat2Z.inj_mul.
    assert (Hk' : (Z.of_nat k < q)%Z).
    { apply Nat2Z.inj_lt in Hk. rewrite Z2Nat.id in Hk by assumption. exact Hk. }
    nia.
Qed.

Section TrainingStream.
Variable fs : string -> option Table.
Variable glob : string -> list string.

(** The batches of one table, for a batch size of at least one. *)
Lemma table_batches_ok (table : Table) (batch_size : Z) :
  (1 <= batch_size)%Z ->
  exists slices,
    table_batches table batch_size =
      Some (map (fun s => to_pydict (mkTable (has_service_name table) s)) slices) /\
    file_batches batch_size (rows table) slices.
Proof.
  intro Hbs.
  set (b := Z.to_nat batch_size). set (n := List.length (rows table)).
  assert (Hb : (1 <= b)%nat) by (unfold b; lia).
  assert (Ebs : batch_size = Z.of_nat b) by (unfold b; lia).
  set (m := Z.to_nat ((Z.of_nat n + Z.of_nat b - 1) / Z.of_nat b)).
  destruct (range_count n Hb) as [Hm1 Hm2]. fold m in Hm1, Hm2.
  set (piece := fun k =>
                  firstn (Nat.min b (n - k * b)) (skipn (k * b) (rows table))).
  exists (map piece (seq 0 m)). split.
  - unfold table_batches, py_range. fold n.
    assert (E0 : (batch_size =? 0)%Z = false) by (apply Z.eqb_neq; lia).
    assert (E1 : (0 <? batch_size)%Z = true) by (apply Z.ltb_lt; lia).
    rewrite E0, E1. f_equal.
    replace (Z.to_nat (Z.max 0 ((Z.of_nat n - 0 + batch_size - 1) / batch_size)))
      with m.
    2:{ unfold m. rewrite Ebs, Z.sub_0_r.
        assert (0 <= (Z.of_nat n + Z.of_nat b - 1) / Z.of_nat b)%Z
          by (apply Z.div_pos; lia).
        lia. }
    rewrite !map_map. apply map_ext. intro k. unfold table_slice, piece. simpl.
    assert (Hk1 : Z.to_nat (Z.of_nat k * batch_size) = (k * b)%nat).
    { unfold b. rewrite Z2Nat.inj_mul, Nat2Z.id by lia. reflexivity. }
    assert (Hk2 : Z.to_nat (Z.min batch_size (Z.of_nat n - Z.of_nat k * batch_size))
                  = Nat.min b (n - k * b)).
    { rewrite Z2Nat.inj_min, Z2Nat.inj_sub, Nat2Z.id, Hk1 by nia.
      reflexivity. }
    now rewrite Hk1, Hk2.
  - unfold file_batches. split; [|split].
    + unfold piece, n. rewrite pieces_concat. apply firstn_all2. exact Hm1.
    + apply Forall_forall. intros s Hs. apply in_map_iff in Hs.
      destruct Hs as [k [<- Hk]]. apply in_seq in Hk.
      unfold piece. rewrite length_firstn, length_skipn. fold n.
      pose proof (Hm2 k ltac:(lia)). lia.
    + intros pre x post Heq Hpost.
      destruct (@seq_middle _ piece m pre post x Heq) as [-> Hlen].
      unfold piece. rewrite length_firstn, length_skipn. fold n.
      assert (Hp : (1 <= List.length post)%nat)
        by (destruct post; [contradiction | simpl; lia]).
      pose proof (Hm2 (List.length pre + 1)%nat ltac:(lia)). lia.
Qed.

(** X19: for a batch size of at least one, [stream_spans_for_training] yields
    the rows of the matched files, file after file in ascending path
    order, cut into batches: the batches of a file make up its rows in
    order, all but the last of a file have exactly [batch_size] rows, and
    no batch holds rows of two files. *)
Theorem training_stream_slices (pattern : string) (batch_size : Z)
    (tables : list Table) :
  (1 <= batch_size)%Z ->
  Forall2 (fun f t => fs f = Some t) (sorted (glob pattern)) tables ->
  exists sliceses : list (list (list Row)),
    Forall2 (fun t slices => file_batches batch_size (rows t) slices)
      tables sliceses /\
    stream_spans_for_training fs glob pattern batch_size =
    (flat_map
       (fun ts =>
          map (fun s => to_pydict (mkTable (has_service_name (fst ts)) s)) (snd ts))
       (combine tables sliceses),
     None).
Proof.
  intros Hbs Hall. unfold stream_spans_for_training.
  assert (H : forall yielded,
             exists sliceses : list (list (list Row)),
               Forall2 (fun t slices => file_batches batch_size (rows t) slices)
                 tables sliceses /\
               training_files fs (sorted (glob pattern)) batch_size yielded =
               (yielded ++
                flat_map
                  (fun ts =>
                     map (fun s => to_pydict (mkTable (has_service_name (fst ts)) s))
                       (snd ts))
                  (combine tables sliceses),
                None)).
  { induction Hall as [|f t files tables' Hf _ IH]; intro yl.
    - exists []. split; [constructor|]. simpl. now rewrite app_nil_r.
    - destruct (table_batches_ok t Hbs) as [slices [Hb Hfb]].
      destruct (IH (yl ++ map (fun s => to_pydict (mkTable (has_service_name t) s))
                            slices)) as [sliceses [H1 H2]].
      exists (slices :: sliceses). split; [now constructor|].
      simpl. unfold read_table. rewrite Hf, Hb, H2, <- app_assoc. reflexivity. }
  destruct (H []) as [sliceses [H1 H2]]. exists sliceses. now split.
Qed.

(** X20: a batch size of zero makes [stream_spans_for_training] raise
    [ValueError] at the first file it opens, before any batch; a negative
    batch size makes it end normally without a single batch. *)
Theorem training_stream_bad_batch_size (pattern : string) (batch_size : Z)
    (tables : list Table) :
  (batch_size <= 0)%Z ->
  Forall2 (fun f t => fs f = Some t) (sorted (glob pattern)) tables ->
  stream_spans_for_training fs glob pattern batch_size =
  ([], if (batch_size =? 0)%Z
       then match tables with
            | [] => None
            | _ :: _ => Some ValueError
            end
       else None).
Proof.
  intros Hbs Hall. unfold stream_spans_for_training.
  destruct (batch_size =? 0)%Z eqn:E0.
  - destruct Hall as [|f t files tables' Hf _]; [reflexivity|].
    simpl. unfold read_table, table_batches, py_range. now rewrite Hf, E0.
  - apply Z.eqb_neq in E0.
    induction Hall as [|f t files tables' Hf _ IH]; [reflexivity|].
    simpl. unfold read_table, table_batches, py_range. rewrite Hf.
    assert (E0' : (batch_size =? 0)%Z = false) by now apply Z.eqb_neq.
    assert (E1 : (0 <? batch_size)%Z = false) by (apply Z.ltb_ge; lia).
    rewrite E0', E1.
    assert (Hq : ((0 - Z.of_nat (List.length (rows t)) - batch_size - 1)
                  / (- batch_size) <= 0)%Z).
    { assert ((0 - Z.of_nat (List.length (rows t)) - batch_size - 1)
              / (- batch_size) < 1)%Z; [|lia].
      apply Z.div_lt_upper_bound; lia. }
    replace (Z.to_nat
               (Z.max 0
                  ((0 - Z.of_nat (List.length (rows t)) - batch_size - 1)
                   / (- batch_size)))) with 0%nat by lia.
    simpl. exact IH.
Qed.
End TrainingStream.

Lemma training_stream_slices_witness :
  exists sliceses : list (list (list Row)),
    Forall2 (fun t slices => file_batches 3 (rows t) slices)
      [Demo.interleaved; Demo.no_rows; Demo.no_service_column; Demo.null_service]
      sliceses /\
    stream_spans_for_training Demo.fs Demo.glob "[in]*.arrow" 3 =
    (flat_map
       (fun ts =>
          map (fun s => to_pydict (mkTable (has_service_name (fst ts)) s)) (snd ts))
       (combine
          [Demo.interleaved; Demo.no_rows; Demo.no_service_column;
           Demo.null_service]
          sliceses),
     None).
Proof.
  apply (@training_stream_slices Demo.fs Demo.glob "[in]*.arrow" 3
           [Demo.interleaved; Demo.no_rows; Demo.no_service_column;
            Demo.null_service]).
  - lia.
  - repeat constructor.
Defined.

Lemma training_stream_bad_batch_size_witness :
  stream_spans_for_training Demo.fs Demo.glob "*_service.arrow" 0 =
  ([], Some ValueError).
Proof.
  apply (@training_stream_bad_batch_size Demo.fs Demo.glob "*_service.arrow" 0
           [Demo.empty_service; Demo.null_service]).
  - lia.
  - repeat constructor.
Defined.

(** ** What a failing stream has yielded *)

Section StreamFailure.
Variable Payload : Type.
Variable json_loads : string -> option Payload.
Variable fs : string -> option Table.
Variable glob : string -> list string.

Lemma stream_rows_fail (batch_size : Z) (rs : list Row) :
  (1 <= batch_size)%Z ->
  forall (current_batch : list Payload) (yielded : list (list Payload)),
    (Z.of_nat (List.length current_batch) < batch_size)%Z ->
    decode_rows json_loads rs = None ->
    exists full lost,
      stream_rows json_loads rs batch_size current_batch yielded =
        (yielded ++ full, Raise JSONDecodeError) /\
      List.concat full ++ lost = current_batch ++ decoded_prefix json_loads rs /\
      Forall (fun b => Z.of_nat (List.length b) = batch_size) full /\
      (Z.of_nat (List.length lost) < batch_size)%Z.
Proof.
  intro Hbs. induction rs as [|r rs IH]; simpl; intros cur yl Hcur Hdec;
    [discriminate|].
  destruct (json_loads (otlp_span r)) as [p|].
  - destruct (decode_rows json_loads rs) as [ps'|] eqn:D; [discriminate|].
    destruct (Z.of_nat (List.length (cur ++ [p])) >=? batch_size)%Z eqn:E.
    + rewrite Z.geb_leb in E. apply Z.leb_le in E.
      assert (Hlen : Z.of_nat (List.length (cur ++ [p])) = batch_size).
      { rewrite length_app in *. simpl in *. lia. }
      destruct (IH [] (yl ++ [cur ++ [p]])) as [full [lost [H1 [H2 [H3 H4]]]]];
        [simpl; lia | reflexivity |].
      exists ((cur ++ [p]) :: full), lost. repeat split; trivial.
      * now rewrite H1, <- app_assoc.
      * simpl. rewrite <- !app_assoc, H2. reflexivity.
      * now constructor.
    + rewrite Z.geb_leb in E. apply Z.leb_gt in E.
      destruct (IH (cur ++ [p]) yl) as [full [lost [H1 [H2 [H3 H4]]]]];
        [lia | reflexivity |].
      exists full, lost. repeat split; trivial.
      rewrite H2, <- app_assoc. reflexivity.
  - exists [], cur. rewrite !app_nil_r. repeat split; trivial.
Qed.

Lemma stream_files_app (batch_size : Z) (l1 l2 : list string)
    (yielded : list (list Payload)) :
  stream_files json_loads fs (l1 ++ l2) batch_size yielded =
  match stream_files json_loads fs l1 batch_size yielded with
  | (yielded', Ok _) => stream_files json_loads fs l2 batch_size yielded'
  | (yielded', Raise e) => (yielded', Raise e)
  end.
Proof.
  revert yielded. induction l1 as [|f l1 IH]; intro yl; simpl; [reflexivity|].
  destruct (read_table fs f) as [t|e]; [|reflexivity].
  destruct (stream_rows json_loads (rows t) batch_size [] yl) as [yl' [cur|e]];
    [apply IH | reflexivity].
Qed.

(** X8: when a malformed payload ends the streaming generator, what it has
    yielded is intact: all the batches of the files before, then full
    batches of the payloads that precede the malformed one in its file.
    The payloads read since the last full batch, fewer than [batch_size],
    are never yielded. *)
Theorem stream_failure_partial (pattern : string) (batch_size : Z)
    (before after : list string) (f : string) (t : Table)
    (pss : list (list Payload)) :
  (1 <= batch_size)%Z ->
  sorted (glob pattern) = before ++ f :: after ->
  load_files json_loads fs before = Ok pss ->
  fs f = Some t ->
  (exists r, In r (rows t) /\ json_loads (otlp_span r) = None) ->
  exists earlier full lost,
    stream_otlp_spans json_loads fs glob pattern batch_size =
      (List.concat earlier ++ full, Raise JSONDecodeError) /\
    Forall2 (file_batches batch_size) pss earlier /\
    List.concat full ++ lost = decoded_prefix json_loads (rows t) /\
    Forall (fun b => Z.of_nat (List.length b) = batch_size) full /\
    (Z.of_nat (List.length lost) < batch_size)%Z.
Proof.
  intros Hbs Hsorted Hload Hfs Hbad. apply decode_rows_none in Hbad.
  unfold stream_otlp_spans. rewrite Hsorted, stream_files_app.
  destruct (@stream_files_ok Payload json_loads fs batch_size before Hbs pss []
              Hload) as [earlier [H1 H2]].
  rewrite H1. simpl. unfold read_table. rewrite Hfs.
  destruct (@stream_rows_fail batch_size (rows t) Hbs [] (List.concat earlier))
    as [full [lost [H3 [H4 [H5 H6]]]]]; [simpl; lia | assumption |].
  rewrite H3. exists earlier, full, lost. repeat split; trivial.
Qed.
End StreamFailure.

Lemma stream_failure_partial_witness :
  exists earlier full lost,
    stream_otlp_spans Demo.json_loads Demo.fs
      (fun _ => ["malformed.arrow"; "interleaved.arrow"]) "*.arrow" 3 =
      (List.concat earlier ++ full, Raise JSONDecodeError) /\
    Forall2 (file_batches 3)
      [[Demo.JNull; Demo.JTrue; Demo.JFalse; Demo.JEmptyObject]] earlier /\
    List.concat full ++ lost = [Demo.JNull].
Proof.
  destruct (@stream_failure_partial Demo.Json Demo.json_loads Demo.fs
              (fun _ => ["malformed.arrow"; "interleaved.arrow"]) "*.arrow" 3
              ["interleaved.arrow"] [] "malformed.arrow" Demo.malformed
              [[Demo.JNull; Demo.JTrue; Demo.JFalse; Demo.JEmptyObject]]
              ltac:(lia) eq_refl eq_refl eq_refl
              (ex_intro _
                 (Demo.row "t1" "s1" "s0" (Some "svcA") "db.query" 10 "{")
                 (conj (or_intror (or_introl eq_refl)) eq_refl)))
    as [earlier [full [lost [H1 [H2 [H3 _]]]]]].
  exists earlier, full, lost. repeat split; assumption.
Defined.

(** ** The two converters on one file *)

Section TwoConverters.
Variable Payload : Type.
Variable json_loads : string -> option Payload.
Variable fs : string -> option Table.
Variable path_stem : string -> string.
Variable path_join : string -> string -> string.

(** X21: on one file that loads and has a row, the single-file converter and
    the merged converter write trees with the same spans, each span as
    often in the one as in the other; only the grouping differs. *)
Theorem converters_same_spans (arrow_file output_dir output_file : string)
    (t : Table) (ps : list Payload) :
  fs arrow_file = Some t ->
  decode_rows json_loads (rows t) = Some ps ->
  rows t <> [] ->
  exists out1 out2,
    convert_arrow_to_otlp json_loads fs path_stem path_join
      arrow_file output_dir =
      ([Mkdir output_dir;
        WriteJson (path_join output_dir
                     (String.append (path_stem arrow_file) ".otlp.json"))
          out1], true) /\
    arrow_to_otlp_json json_loads fs [arrow_file] output_file =
      ([WriteJson output_file out2], Ok tt) /\
    Permutation (tree_spans out1) (tree_spans out2) /\
    List.length (tree_spans out1) = List.length (rows t).
Proof.
  intros Hfs Hdec Hne.
  assert (Hlen : List.length (rows t) = List.length ps)
    by (eapply decode_rows_length; eassumption).
  pose proof (arrow_to_otlp_json_spec json_loads fs [arrow_file] output_file) as H.
  simpl in H. rewrite (load_spans_ok json_loads fs arrow_file Hfs Hdec) in H.
  simpl in H. destruct H as [out2 [H1 [_ H2]]]. rewrite app_nil_r in H2.
  exists (expected_tree t ps), out2. split; [|split; [exact H1|split]].
  - rewrite convert_spec, Hfs, Hdec.
    destruct (rows t); [contradiction | reflexivity].
  - rewrite H2. now apply tree_spans_perm.
  - rewrite Hlen. apply Permutation_length. now apply tree_spans_perm.
Qed.
End TwoConverters.

Lemma converters_same_spans_witness :
  exists out1 out2,
    convert_arrow_to_otlp Demo.json_loads Demo.fs Demo.path_stem Demo.path_join
      "interleaved.arrow" "out" =
      ([Mkdir "out"; WriteJson "out/interleaved.otlp.json" out1], true) /\
    arrow_to_otlp_json Demo.json_loads Demo.fs ["interleaved.arrow"] "o.json" =
      ([WriteJson "o.json" out2], Ok tt) /\
    Permutation (tree_spans out1) (tree_spans out2).
Proof.
  destruct (@converters_same_spans Demo.Json Demo.json_loads Demo.fs
              Demo.path_stem Demo.path_join "interleaved.arrow" "out" "o.json"
              Demo.interleaved
              [Demo.JNull; Demo.JTrue; Demo.JFalse; Demo.JEmptyObject]
              eq_refl eq_refl ltac:(discriminate))
    as [out1 [out2 [H1 [H2 [H3 _]]]]].
  exists out1, out2. repeat split; assumption.
Defined.
